(** * Embotic anti-abuse watchdog: a shallow embedding of [index.js] and
      [abuse log script.js]

    The repository holds two near-duplicate scripts.  [index.js] (module
    [Index] below) notifies as soon as a server is over one of its limits;
    [abuse log script.js] (module [AbuseLog]) keeps a per-server timer and
    escalates: report after [REPORT_THRESHOLD_SECONDS], kill after the kill
    threshold.

    Conventions of the embedding.
    - JavaScript numbers are modelled by exact numbers: rationals [Q] for
      resource figures and limits, integers [Z] for millisecond clock
      readings, retry counters and nest ids.  The only arithmetic the scripts
      do on them is a subtraction of clock readings and divisions by
      [1024], [1024 ** 3] and [1000].  Dividing a double by a power of two is
      exact, and [x / 1000 >= c] for an integer [x] and the integer constants
      [c] used here is decided the same way on doubles as on rationals, so the
      comparisons below are the comparisons the scripts perform.  [NaN],
      [undefined] and non-numeric JSON values are outside the model.
    - [async] functions are modelled by their sequential behaviour: the
      answers of the outside world ([fetch] outcomes, [Date.now()] readings)
      are inputs, the calls made to it (requests, sleeps, webhook posts, kill
      signals) are returned as a list of events.  Calls to [log] and
      [console.error] are not recorded.
    - [overLimitTracker] is a plain object used as a dictionary from server
      UUID to a record; it is a [gmap string _] here, threaded explicitly.
      The keys are the UUIDs of the panel, never the name of a property that
      every object inherits.
    - The tasks of a batch run concurrently and interleave at their
      [await]s.  Each one reads and writes the record of its own server
      only, so they are run one after the other here
      ([EpisodeFacts.evaluate_commute]); a directory that lists one UUID
      twice in a batch is outside the model. *)

From Stdlib Require Import ZArith QArith Lia.
From stdpp Require Import gmap strings list fin_maps.
From Equations Require Import Equations.
From Stdlib Require Import Ascii.

Open Scope Z_scope.

(** ** Values shared by the two scripts *)

(** [server.attributes.limits] of the application API: [cpu] in percent,
    [memory] and [disk] in MB; [0] stands for "unlimited". *)
Record Limits := mkLimits {
  cpu : Q;
  memory : Q;
  disk : Q
}.

(** [data.attributes.resources] of the client API. *)
Record Resources := mkResources {
  cpu_absolute : Q;
  memory_bytes : Q;
  disk_bytes : Q
}.

(** [a > b] and [a >= b] on numbers. *)
Definition js_gt (a b : Q) : bool := negb (Qle_bool a b).
Definition js_ge (a b : Q) : bool := Qle_bool b a.

(** How a statement or an [await] completes: normally with a value, or
    abruptly with a thrown error (its message). *)
Inductive completion (A : Type) : Type :=
| Normal (a : A)
| Throw (msg : string).
Arguments Normal {A} a.
Arguments Throw {A} msg.

(** [try { body } catch (error) { handler }] *)
Definition try_catch {A} (body : completion A) (handler : string → completion A)
  : completion A :=
  match body with
  | Normal a => Normal a
  | Throw msg => handler msg
  end.

(** A node-fetch [Response] as far as the scripts look at it: the status
    code and what [response.json()] resolves to (it rejects on a body that
    is not JSON). *)
Record Response (J : Type) := mkResponse {
  status : Z;
  json : completion J
}.
Arguments mkResponse {J} status json.
Arguments status {J} r.
Arguments json {J} r.

(** node-fetch: [get ok() { return this.status >= 200 && this.status < 300 }] *)
Definition ok {J} (r : Response J) : bool :=
  (200 <=? status r) && (status r <? 300).

(** What the outside world does: requests, sleeps, webhook posts, kills. *)
Inductive Event :=
| EFetch (url : string)
| EDelay (ms : Z)
| ENotify (uuid : string)
| EKill (uuid : string)
| ELogToDiscord (uuid : string).

Global Instance Event_eq_dec : EqDecision Event.
Proof. solve_decision. Defined.

(** One page of [GET /api/application/servers]: [data] and
    [meta.pagination.links.next]. *)
Record RawServer := mkRawServer {
  attr_uuid : string;
  attr_name : string;
  attr_limits : Limits;
  attr_nest_id : Z
}.

Record Page := mkPage {
  page_data : list RawServer;
  links_next : option string
}.

(** [x || null] on a link: a missing, [null] or empty link is falsy. *)
Definition or_null (next : option string) : option string :=
  match next with
  | Some s => if decide (s = "") then None else Some s
  | None => None
  end.

(** ** index.js *)
Module Index.

Definition PANEL_URL : string := "https://panel.embotic.xyz/".
Definition DELAY_BETWEEN_CHECKS_MS : Z := 60000.
Definition BATCH_SIZE : nat := 5.

(** The condition of the [if] of [getServerResources], lines 72-85. *)
Definition overLimit (limits : Limits) (resources : Resources) : bool :=
  let memoryGB := (memory_bytes resources / (1024 ^ 3))%Q in
  let diskGB := (disk_bytes resources / (1024 ^ 3))%Q in
  let cpuUsage := cpu_absolute resources in
  let memoryLimitGB := (memory limits / 1024)%Q in
  let diskLimitGB := (disk limits / 1024)%Q in
  let cpuLimit := cpu limits in
  (js_gt cpuLimit 0 && js_ge cpuUsage cpuLimit)
  || (js_gt (memory limits) 0 && js_ge memoryGB memoryLimitGB)
  || (js_gt (disk limits) 0 && js_ge diskGB diskLimitGB).

(** [fetchWithRetry(url, headers, retries = 3)], lines 28-41.  [world k]
    is the outcome of the [k]-th call of [fetch] made on behalf of this
    request ([Throw]: the promise rejects, e.g. a network error).  The
    recursion is on [retries], a number: it is well founded because the
    recursive call is guarded by [retries > 0]. *)
Equations? fetchWithRetry {J : Type} (url : string)
    (world : nat → completion (Response J)) (k : nat) (retries : Z)
    : list Event * completion (option J) by wf (Z.to_nat retries) lt :=
  fetchWithRetry url world k retries with world k => {
    | Throw msg := ([EFetch url], Normal None);
    | Normal response with ok response => {
      | true :=
          ([EFetch url],
           try_catch (match json response with
                      | Normal j => Normal (Some j)
                      | Throw msg => Throw msg
                      end)
                     (λ _, Normal None));
      | false with decide (status response = 504 ∧ retries > 0) => {
        | left _ :=
            let r := fetchWithRetry url world (S k) (retries - 1) in
            (EFetch url :: EDelay 2000 :: r.1, r.2);
        | right _ := ([EFetch url], Normal None) } } }.
Proof. lia. Qed.

Definition DEFAULT_RETRIES : Z := 3.

(** The objects pushed on [serverUUIDs], lines 53-57. *)
Record ServerEntry := mkServerEntry {
  uuid : string;
  limits : Limits;
  name : string
}.

(** The body of [for (const server of data.data)], lines 51-59. *)
Definition pushServer (serverUUIDs : list ServerEntry) (server : RawServer)
  : list ServerEntry :=
  if negb (bool_decide (attr_nest_id server ∈ [1; 6])) then
    serverUUIDs ++ [ {| uuid := attr_uuid server;
                        limits := attr_limits server;
                        name := attr_name server |} ]
  else serverUUIDs.

(** The [while (nextPageUrl)] loop of [getAllServersFromAppAPI], lines
    47-64.  [worlds] gives, request after request, the world in which
    [fetchWithRetry] runs; [None] means that the loop asked for a page
    beyond the ones [worlds] describes. *)
Fixpoint getAllServers_loop (worlds : list (nat → completion (Response Page)))
    (nextPageUrl : option string) (serverUUIDs : list ServerEntry)
    : option (list Event * completion (list ServerEntry)) :=
  match or_null nextPageUrl with
  | None => Some ([], Normal serverUUIDs)
  | Some url =>
    match worlds with
    | [] => None
    | w :: worlds' =>
      let r := fetchWithRetry url w 0 DEFAULT_RETRIES in
      match r.2 with
      | Throw msg => Some (r.1, Throw msg)
      | Normal None => Some (r.1, Normal [])
      | Normal (Some data) =>
        match getAllServers_loop worlds' (links_next data)
                (fold_left pushServer (page_data data) serverUUIDs) with
        | Some r' => Some (r.1 ++ r'.1, r'.2)
        | None => None
        end
      end
    end
  end.

Definition getAllServersFromAppAPI
    (worlds : list (nat → completion (Response Page)))
    : option (list Event * completion (list ServerEntry)) :=
  getAllServers_loop worlds
    (Some (PANEL_URL +:+ "/api/application/servers?page=1")) [].


(** The values of [overLimitTracker] in index.js: [{ reported: true }]. *)
Record OverLimitEntry := mkEntry {
  reported : bool
}.

(** [notifyServerOverLimit], lines 95-111: the report is posted to the
    webhook.  [webhook] is the outcome of that [fetch]; nothing catches its
    rejection and the response is not looked at. *)
Definition notifyServerOverLimit (server : ServerEntry)
    (webhook : completion (Response unit)) : list Event * completion unit :=
  ([ENotify (uuid server)],
   match webhook with
   | Normal _ => Normal tt
   | Throw msg => Throw msg
   end).

(** [getServerResources(server)], lines 67-93.
    [overLimitTracker[server.uuid]?.reported] is [undefined] without a
    record. *)
Definition getServerResources (server : ServerEntry)
    (world : nat → completion (Response Resources))
    (webhook : completion (Response unit))
    (overLimitTracker : gmap string OverLimitEntry)
    : gmap string OverLimitEntry * list Event * completion unit :=
  let url := PANEL_URL +:+ "/api/client/servers/" +:+ uuid server
             +:+ "/resources" in
  let r := fetchWithRetry url world 0 DEFAULT_RETRIES in
  match r.2 with
  | Throw msg => (overLimitTracker, r.1, Throw msg)
  | Normal None => (overLimitTracker, r.1, Normal tt)
  | Normal (Some resources) =>
    if overLimit (limits server) resources then
      if negb (match overLimitTracker !! uuid server with
               | Some e => reported e
               | None => false
               end)
      then
        let n := notifyServerOverLimit server webhook in
        match n.2 with
        | Throw msg => (overLimitTracker, r.1 ++ n.1, Throw msg)
        | Normal _ =>
          (<[uuid server := {| reported := true |}]> overLimitTracker,
           r.1 ++ n.1, Normal tt)
        end
      else (overLimitTracker, r.1, Normal tt)
    else
      match overLimitTracker !! uuid server with
      | Some _ => (delete (uuid server) overLimitTracker, r.1, Normal tt)
      | None => (overLimitTracker, r.1, Normal tt)
      end
  end.

End Index.

(** ** abuse log script.js *)
Module AbuseLog.

Definition PANEL_URL : string := "".
Definition DELAY_BETWEEN_CHECKS_MS : Z := 10000.
Definition DELAY_BETWEEN_BATCHES_MS : Z := 2000.
Definition RETRY_LIMIT : Z := 3.
Definition BATCH_SIZE : nat := 5.
Definition REPORT_THRESHOLD_SECONDS : Z := 7200.
Definition KILL_THRESHOLD_SECONDS : Z := 10800.

(** The condition of the [if] of [getServerResources], lines 230-249. *)
Definition overLimit (limits : Limits) (resources : Resources) : bool :=
  let memoryGB := (memory_bytes resources / (1024 ^ 3))%Q in
  let diskGB := (disk_bytes resources / (1024 ^ 3))%Q in
  let cpuUsage := cpu_absolute resources in
  let memoryLimitGB := (memory limits / 1024)%Q in
  let diskLimitGB := (disk limits / 1024)%Q in
  let cpuLimit := cpu limits in
  (js_gt cpuLimit 0 && js_ge cpuUsage cpuLimit)
  || (js_gt (memory limits) 0 && js_ge memoryGB memoryLimitGB)
  || (js_gt (disk limits) 0 && js_ge diskGB diskLimitGB).

(** [fetchWithRetry(url, headers, retries = RETRY_LIMIT)], lines 168-186.
    [world k] is the outcome of the [k]-th call of [fetch] made on behalf
    of this request ([Throw]: the promise rejects, e.g. a network error).
    The recursion is on [retries], a number: it is well founded because
    the recursive call is guarded by [retries > 0]. *)
Equations? fetchWithRetry {J : Type} (url : string)
    (world : nat → completion (Response J)) (k : nat) (retries : Z)
    : list Event * completion (option J) by wf (Z.to_nat retries) lt :=
  fetchWithRetry url world k retries with world k => {
    | Throw msg := ([EFetch url], Normal None);
    | Normal response with ok response => {
      | true :=
          ([EFetch url],
           try_catch (match json response with
                      | Normal j => Normal (Some j)
                      | Throw msg => Throw msg
                      end)
                     (λ _, Normal None));
      | false with decide (status response = 504 ∧ retries > 0) => {
        | left _ :=
            let r := fetchWithRetry url world (S k) (retries - 1) in
            (EFetch url :: EDelay DELAY_BETWEEN_CHECKS_MS :: r.1, r.2);
        | right _ := ([EFetch url], Normal None) } } }.
Proof. lia. Qed.

(** The objects pushed on [serverUUIDs], lines 204-209. *)
Record ServerEntry := mkServerEntry {
  uuid : string;
  limits : Limits;
  name : string;
  nest : Z
}.

(** The body of [for (const server of data.data)], lines 197-210. *)
Definition pushServer (serverUUIDs : list ServerEntry) (server : RawServer)
  : list ServerEntry :=
  let nest := attr_nest_id server in
  if (nest =? 1) || (nest =? 6) then serverUUIDs
  else serverUUIDs ++ [ {| uuid := attr_uuid server;
                           limits := attr_limits server;
                           name := attr_name server;
                           nest := nest |} ].

(** The [while (nextPageUrl)] loop of [getAllServersFromAppAPI], lines
    193-213.  [worlds] gives, request after request, the world in which
    [fetchWithRetry] runs; [None] means that the loop asked for a page
    beyond the ones [worlds] describes. *)
Fixpoint getAllServers_loop (worlds : list (nat → completion (Response Page)))
    (nextPageUrl : option string) (serverUUIDs : list ServerEntry)
    : option (list Event * completion (list ServerEntry)) :=
  match or_null nextPageUrl with
  | None => Some ([], Normal serverUUIDs)
  | Some url =>
    match worlds with
    | [] => None
    | w :: worlds' =>
      let r := fetchWithRetry url w 0 RETRY_LIMIT in
      match r.2 with
      | Throw msg => Some (r.1, Throw msg)
      | Normal None => Some (r.1, Normal [])
      | Normal (Some data) =>
        match getAllServers_loop worlds' (links_next data)
                (fold_left pushServer (page_data data) serverUUIDs) with
        | Some r' => Some (r.1 ++ r'.1, r'.2)
        | None => None
        end
      end
    end
  end.

Definition getAllServersFromAppAPI
    (worlds : list (nat → completion (Response Page)))
    : option (list Event * completion (list ServerEntry)) :=
  getAllServers_loop worlds
    (Some (PANEL_URL +:+ "/api/application/servers?page=1")) [].

(** The values of [overLimitTracker]: [{ startTime, reported }], to which
    line 256 adds [isOverLimit] ([None]: the property is not set). *)
Record OverLimitEntry := mkEntry {
  startTime : Z;
  reported : bool;
  isOverLimit : option bool
}.

Global Instance OverLimitEntry_eq_dec : EqDecision OverLimitEntry.
Proof. solve_decision. Defined.

(** Lines 222-223. *)
Definition customKillThresholdSeconds (nest : Z) : Z :=
  let isSpecialNest := (nest =? 1) || (nest =? 6) in
  if isSpecialNest then 18000 else KILL_THRESHOLD_SECONDS.

(** [(Date.now() - startTime) / 1000], line 258. *)
Definition elapsedTime (now startTime : Z) : Q :=
  (inject_Z (now - startTime) / 1000)%Q.

(** Lines 230-279 of [getServerResources]: what happens once the
    resources of the server are known.  [now1] is the clock read on line
    253 (only when a record is created), [now2] the one read on line 258.
    Reading a property of a missing record is a [TypeError]. *)
Definition getServerResources_body (serverUUID : string) (limits : Limits)
    (nest : Z) (resources : Resources) (now1 now2 : Z)
    (overLimitTracker : gmap string OverLimitEntry)
    : gmap string OverLimitEntry * list Event * completion unit :=
  if overLimit limits resources then
    let tracker1 :=
      match overLimitTracker !! serverUUID with
      | None => <[serverUUID := {| startTime := now1; reported := false;
                                   isOverLimit := None |}]> overLimitTracker
      | Some _ => overLimitTracker
      end in
    match tracker1 !! serverUUID with
    | None => (tracker1, [], Throw "TypeError")
    | Some e1 =>
      let e2 := {| startTime := startTime e1; reported := reported e1;
                   isOverLimit := Some true |} in
      let tracker2 := <[serverUUID := e2]> tracker1 in
      let elapsedTime := elapsedTime now2 (startTime e2) in
      let '(tracker3, events3) :=
        if js_ge elapsedTime (inject_Z REPORT_THRESHOLD_SECONDS)
           && negb (reported e2)
        then (<[serverUUID := {| startTime := startTime e2; reported := true;
                                 isOverLimit := isOverLimit e2 |}]> tracker2,
              [ENotify serverUUID])
        else (tracker2, []) in
      let '(tracker4, events4) :=
        if js_ge elapsedTime (inject_Z (customKillThresholdSeconds nest))
        then (delete serverUUID tracker3,
              [EKill serverUUID; ELogToDiscord serverUUID])
        else (tracker3, []) in
      (tracker4, events3 ++ events4, Normal tt)
    end
  else
    match overLimitTracker !! serverUUID with
    | Some _ => (delete serverUUID overLimitTracker, [], Normal tt)
    | None => (overLimitTracker, [], Normal tt)
    end.

(** [getServerResources(serverUUID, limits, serverName, nest)], lines
    219-280. *)
Definition getServerResources (serverUUID : string) (limits : Limits)
    (serverName : string) (nest : Z)
    (world : nat → completion (Response Resources)) (now1 now2 : Z)
    (overLimitTracker : gmap string OverLimitEntry)
    : gmap string OverLimitEntry * list Event * completion unit :=
  let url := PANEL_URL +:+ "/api/client/servers/" +:+ serverUUID
             +:+ "/resources" in
  let r := fetchWithRetry url world 0 RETRY_LIMIT in
  match r.2 with
  | Throw msg => (overLimitTracker, r.1, Throw msg)
  | Normal None => (overLimitTracker, r.1, Normal tt)
  | Normal (Some resources) =>
    let '(tracker', events, c) :=
      getServerResources_body serverUUID limits nest resources now1 now2
        overLimitTracker in
    (tracker', r.1 ++ events, c)
  end.


(** The batches of the main loop, lines 375-376:
    [for (let i = 0; i < servers.length; i += BATCH_SIZE)] with
    [servers.slice(i, i + BATCH_SIZE)]. *)
Equations? batches (servers : list ServerEntry) (i : nat)
    : list (list ServerEntry) by wf (length servers - i)%nat lt :=
  batches servers i with decide (i < length servers)%nat => {
    | left _ :=
        take BATCH_SIZE (drop i servers) :: batches servers (i + BATCH_SIZE);
    | right _ := [] }.
Proof. unfold BATCH_SIZE. lia. Qed.

(** What the world answers during one cycle of the main loop: the page
    requests of the directory in order, and for each server the answers to
    its resource request and its two clock readings. *)
Record CycleWorld := mkCycleWorld {
  pageWorlds : list (nat → completion (Response Page));
  resourceWorld : string → nat → completion (Response Resources);
  clock : string → Z * Z
}.

(** [Promise.all(batch.map(server => getServerResources(...)))], lines
    378-380, under the schedule that runs the tasks of a batch one after
    the other; the promise rejects when one of the tasks does. *)
Fixpoint runBatch (w : CycleWorld) (batch : list ServerEntry)
    (overLimitTracker : gmap string OverLimitEntry)
    : gmap string OverLimitEntry * list Event * completion unit :=
  match batch with
  | [] => (overLimitTracker, [], Normal tt)
  | server :: batch' =>
    let '(tracker1, events1, c1) :=
      getServerResources (uuid server) (limits server) (name server)
        (nest server) (resourceWorld w (uuid server))
        (clock w (uuid server)).1 (clock w (uuid server)).2
        overLimitTracker in
    let '(tracker2, events2, c2) := runBatch w batch' tracker1 in
    (tracker2, events1 ++ events2,
     match c1 with Normal _ => c2 | Throw msg => Throw msg end)
  end.

(** The body of the [for] loop over the batches, lines 375-383. *)
Fixpoint runBatches (w : CycleWorld) (bs : list (list ServerEntry))
    (overLimitTracker : gmap string OverLimitEntry)
    : gmap string OverLimitEntry * list Event * completion unit :=
  match bs with
  | [] => (overLimitTracker, [], Normal tt)
  | batch :: bs' =>
    let '(tracker1, events1, c1) := runBatch w batch overLimitTracker in
    match c1 with
    | Throw msg => (tracker1, events1, Throw msg)
    | Normal _ =>
      let '(tracker2, events2, c2) := runBatches w bs' tracker1 in
      (tracker2, events1 ++ EDelay DELAY_BETWEEN_BATCHES_MS :: events2, c2)
    end
  end.

(** One iteration of [while (true)], lines 372-387. *)
Definition pollCycle (w : CycleWorld)
    (overLimitTracker : gmap string OverLimitEntry)
    : option (gmap string OverLimitEntry * list Event * completion unit) :=
  match getAllServersFromAppAPI (pageWorlds w) with
  | None => None
  | Some (events0, Throw msg) => Some (overLimitTracker, events0, Throw msg)
  | Some (events0, Normal servers) =>
    let '(tracker1, events1, c1) :=
      runBatches w (batches servers 0) overLimitTracker in
    match c1 with
    | Throw msg => Some (tracker1, events0 ++ events1, Throw msg)
    | Normal _ =>
      Some (tracker1,
            events0 ++ events1 ++ [EDelay DELAY_BETWEEN_CHECKS_MS],
            Normal tt)
    end
  end.


(** [notifyServerOverLimit], lines 282-319, [killServer], lines 321-339,
    and [logToDiscord], lines 341-369: one request each, inside
    [try]/[catch]; the response is only logged.  The argument is the outcome
    of the [fetch]. *)
Definition notifyServerOverLimit (serverUUID : string)
    (webhook : completion (Response unit)) : list Event * completion unit :=
  ([ENotify serverUUID],
   try_catch (match webhook with
              | Normal _ => Normal tt
              | Throw msg => Throw msg
              end)
             (λ _, Normal tt)).

Definition killServer (serverUUID : string)
    (power : completion (Response unit)) : list Event * completion unit :=
  ([EKill serverUUID],
   try_catch (match power with
              | Normal _ => Normal tt
              | Throw msg => Throw msg
              end)
             (λ _, Normal tt)).

Definition logToDiscord (serverUUID : string)
    (webhook : completion (Response unit)) : list Event * completion unit :=
  ([ELogToDiscord serverUUID],
   try_catch (match webhook with
              | Normal _ => Normal tt
              | Throw msg => Throw msg
              end)
             (λ _, Normal tt)).

(** What the webhook and the power endpoint answer during one evaluation. *)
Record Sinks := mkSinks {
  reportHook : completion (Response unit);
  powerEndpoint : completion (Response unit);
  auditHook : completion (Response unit)
}.

(** Lines 230-279 of [getServerResources] once more, this time with the
    three escalation actions run against [sinks] and their completions
    threaded through the [await]s. *)
Definition getServerResources_actions (serverUUID : string) (limits : Limits)
    (nest : Z) (resources : Resources) (now1 now2 : Z) (sinks : Sinks)
    (overLimitTracker : gmap string OverLimitEntry)
    : gmap string OverLimitEntry * list Event * completion unit :=
  if overLimit limits resources then
    let tracker1 :=
      match overLimitTracker !! serverUUID with
      | None => <[serverUUID := {| startTime := now1; reported := false;
                                   isOverLimit := None |}]> overLimitTracker
      | Some _ => overLimitTracker
      end in
    match tracker1 !! serverUUID with
    | None => (tracker1, [], Throw "TypeError")
    | Some e1 =>
      let e2 := {| startTime := startTime e1; reported := reported e1;
                   isOverLimit := Some true |} in
      let tracker2 := <[serverUUID := e2]> tracker1 in
      let elapsedTime := elapsedTime now2 (startTime e2) in
      let '(tracker3, events3, c3) :=
        if js_ge elapsedTime (inject_Z REPORT_THRESHOLD_SECONDS)
           && negb (reported e2)
        then
          let n := notifyServerOverLimit serverUUID (reportHook sinks) in
          match n.2 with
          | Throw msg => (tracker2, n.1, Throw msg)
          | Normal _ =>
            match tracker2 !! serverUUID with
            | None => (tracker2, n.1, Throw "TypeError")
            | Some e =>
              (<[serverUUID := {| startTime := startTime e; reported := true;
                                  isOverLimit := isOverLimit e |}]> tracker2,
               n.1, Normal tt)
            end
          end
        else (tracker2, [], Normal tt) in
      match c3 with
      | Throw msg => (tracker3, events3, Throw msg)
      | Normal _ =>
        if js_ge elapsedTime (inject_Z (customKillThresholdSeconds nest))
        then
          let k := killServer serverUUID (powerEndpoint sinks) in
          match k.2 with
          | Throw msg => (tracker3, events3 ++ k.1, Throw msg)
          | Normal _ =>
            let a := logToDiscord serverUUID (auditHook sinks) in
            match a.2 with
            | Throw msg => (tracker3, events3 ++ k.1 ++ a.1, Throw msg)
            | Normal _ =>
              (delete serverUUID tracker3, events3 ++ k.1 ++ a.1, Normal tt)
            end
          end
        else (tracker3, events3, Normal tt)
      end
    end
  else
    match overLimitTracker !! serverUUID with
    | Some _ => (delete serverUUID overLimitTracker, [], Normal tt)
    | None => (overLimitTracker, [], Normal tt)
    end.

(** [String.prototype.replace] with a pattern of one character: its first
    occurrence is replaced. *)
Fixpoint replaceChar (c : ascii) (replacement : string) (s : string) : string :=
  match s with
  | EmptyString => EmptyString
  | String a s' =>
    if Ascii.eqb a c then replacement +:+ s'
    else String a (replaceChar c replacement s')
  end.

(** [getTimestamp], lines 155-157; [iso] is what
    [new Date().toISOString()] returns. *)
Definition getTimestamp (iso : string) : string :=
  String.substring 0 19 (replaceChar "T" " " iso).

End AbuseLog.

(** ** Observations on runs *)

(** The requests and the sleeps among the events of a run. *)
Fixpoint fetchCount (events : list Event) : nat :=
  match events with
  | [] => 0
  | EFetch _ :: events' => S (fetchCount events')
  | _ :: events' => fetchCount events'
  end.

Fixpoint delaysOf (events : list Event) : list Z :=
  match events with
  | [] => []
  | EDelay ms :: events' => ms :: delaysOf events'
  | _ :: events' => delaysOf events'
  end.

Fixpoint requestsOf (events : list Event) : list string :=
  match events with
  | [] => []
  | EFetch url :: events' => url :: requestsOf events'
  | _ :: events' => requestsOf events'
  end.

(** ** The directory, in the words of the specification *)

(** The nests that the directory leaves out. *)
Definition EXCLUDED_NESTS : list Z := [1; 6].

Definition included (server : RawServer) : Prop :=
  attr_nest_id server ∉ EXCLUDED_NESTS.

Global Instance included_dec server : Decision (included server).
Proof. unfold included. apply _. Defined.

(** What each script keeps of an instance. *)
Definition index_entry (server : RawServer) : Index.ServerEntry :=
  {| Index.uuid := attr_uuid server;
     Index.limits := attr_limits server;
     Index.name := attr_name server |}.

Definition abuselog_entry (server : RawServer) : AbuseLog.ServerEntry :=
  {| AbuseLog.uuid := attr_uuid server;
     AbuseLog.limits := attr_limits server;
     AbuseLog.name := attr_name server;
     AbuseLog.nest := attr_nest_id server |}.

(** A walk along the pagination links.  [fetched w] is what
    [fetchWithRetry] returns in the world [w].  [crawl fetched worlds next
    urls pages complete] holds when, starting with the link [next], the
    pages [pages] are obtained one after the other at the addresses [urls]
    and then either no link remains ([complete = true]) or the request at
    the last of [urls] yields no data ([complete = false]). *)
Inductive crawl (fetched : (nat → completion (Response Page)) → option Page)
  : list (nat → completion (Response Page)) → option string →
    list string → list Page → bool → Prop :=
| crawl_end worlds next :
    or_null next = None →
    crawl fetched worlds next [] [] true
| crawl_no_data w worlds next url :
    or_null next = Some url →
    fetched w = None →
    crawl fetched (w :: worlds) next [url] [] false
| crawl_page w worlds next url data urls pages complete :
    or_null next = Some url →
    fetched w = Some data →
    crawl fetched worlds (links_next data) urls pages complete →
    crawl fetched (w :: worlds) next (url :: urls) (data :: pages) complete.

(** The value of a completion that is known not to throw. *)
Definition valueOf {A} (c : completion (option A)) : option A :=
  match c with
  | Normal v => v
  | Throw _ => None
  end.

Definition index_fetched (w : nat → completion (Response Page)) : option Page :=
  valueOf (Index.fetchWithRetry "" w 0 Index.DEFAULT_RETRIES).2.

Definition abuselog_fetched (w : nat → completion (Response Page))
  : option Page :=
  valueOf (AbuseLog.fetchWithRetry "" w 0 AbuseLog.RETRY_LIMIT).2.

(** All the instances of the pages, in order. *)
Definition instancesOf (pages : list Page) : list RawServer :=
  concat (map page_data pages).

(** What a listing returns, given a walk along the links. *)
Definition listed {E} (entry : RawServer → E) (pages : list Page)
    (complete : bool) : list E :=
  if complete then map entry (filter included (instancesOf pages)) else [].

(** The breach predicate in the words of the specification: a limit that is
    set is met or exceeded, memory and disk being compared in GB. *)
Definition breach_spec (l : Limits) (r : Resources) : Prop :=
  ((0 < cpu l ∧ cpu l <= cpu_absolute r)
   ∨ (0 < memory l ∧ memory l / 1024 <= memory_bytes r / 1024 ^ 3)
   ∨ (0 < disk l ∧ disk l / 1024 <= disk_bytes r / 1024 ^ 3))%Q.

(** The snapshot [r] sits exactly at one of the limits that are set. *)
Definition at_a_limit (l : Limits) (r : Resources) : Prop :=
  ((0 < cpu l ∧ cpu_absolute r == cpu l)
   ∨ (0 < memory l ∧ memory_bytes r / 1024 ^ 3 == memory l / 1024)
   ∨ (0 < disk l ∧ disk_bytes r / 1024 ^ 3 == disk l / 1024))%Q.

(** ** The tracker, in the words of the specification *)

(** One evaluation of an instance: the arguments of [getServerResources],
    the snapshot and the two clock readings. *)
Record Evaluation := mkEvaluation {
  ev_uuid : string;
  ev_limits : Limits;
  ev_nest : Z;
  ev_resources : Resources;
  ev_now1 : Z;
  ev_now2 : Z
}.

Definition evaluate (ev : Evaluation)
    (tracker : gmap string AbuseLog.OverLimitEntry)
    : gmap string AbuseLog.OverLimitEntry * list Event * completion unit :=
  AbuseLog.getServerResources_body (ev_uuid ev) (ev_limits ev) (ev_nest ev)
    (ev_resources ev) (ev_now1 ev) (ev_now2 ev) tracker.

(** Evaluations one after the other, with the events of all of them. *)
Fixpoint run (evs : list Evaluation)
    (tracker : gmap string AbuseLog.OverLimitEntry)
    : gmap string AbuseLog.OverLimitEntry * list Event :=
  match evs with
  | [] => (tracker, [])
  | ev :: evs' =>
    let r := evaluate ev tracker in
    let r' := run evs' r.1.1 in
    (r'.1, r.1.2 ++ r'.2)
  end.

(** The record created at a first breach. *)
Definition freshRecord (now : Z) : AbuseLog.OverLimitEntry :=
  {| AbuseLog.startTime := now; AbuseLog.reported := false;
     AbuseLog.isOverLimit := None |}.

(** The record that an evaluation of a breaching instance works with: the
    one of the tracker, or the one it creates. *)
Definition recordInEffect (tracker : gmap string AbuseLog.OverLimitEntry)
    (uuid : string) (now1 : Z) : AbuseLog.OverLimitEntry :=
  match tracker !! uuid with
  | Some e => e
  | None => freshRecord now1
  end.

(** Line 256: [isOverLimit = true]. *)
Definition markOverLimit (e : AbuseLog.OverLimitEntry)
    : AbuseLog.OverLimitEntry :=
  {| AbuseLog.startTime := AbuseLog.startTime e;
     AbuseLog.reported := AbuseLog.reported e;
     AbuseLog.isOverLimit := Some true |}.

(** Whether the elapsed time has reached [seconds]. *)
Definition reached (seconds : Z) (now2 : Z) (e : AbuseLog.OverLimitEntry)
    : bool :=
  js_ge (AbuseLog.elapsedTime now2 (AbuseLog.startTime e)) (inject_Z seconds).

(** How many times [Notify] is emitted for [uuid], and whether [Terminate]
    is. *)
Fixpoint notifyCount (uuid : string) (events : list Event) : nat :=
  match events with
  | [] => 0
  | e :: events' =>
    (if decide (e = ENotify uuid) then 1 else 0) + notifyCount uuid events'
  end.

Definition Terminate (uuid : string) : list Event :=
  [EKill uuid; ELogToDiscord uuid].

(** The evaluations [evs], started on [tracker], stay within one episode
    of [uuid]: its record is there after each of them, the last excepted. *)
Fixpoint sameEpisode (uuid : string) (evs : list Evaluation)
    (tracker : gmap string AbuseLog.OverLimitEntry) : Prop :=
  match evs with
  | [] => True
  | ev :: evs' =>
    match evs' with
    | [] => True
    | _ :: _ =>
      is_Some ((evaluate ev tracker).1.1 !! uuid)
      ∧ sameEpisode uuid evs' (evaluate ev tracker).1.1
    end
  end.

(** ** Sample worlds *)

(** A 504 followed by a successful response carrying the body [7]. *)
Definition world_504_then_ok (k : nat) : completion (Response Z) :=
  match k with
  | O => Normal (mkResponse 504 (Throw "no body"))
  | _ => Normal (mkResponse 200 (Normal 7))
  end.

(** The gateway times out for ever. *)
Definition world_504 (k : nat) : completion (Response Z) :=
  Normal (mkResponse 504 (Throw "no body")).

(** A world that answers every request with the body [body]. *)
Definition answers {J} (body : J) (k : nat) : completion (Response J) :=
  Normal (mkResponse 200 (Normal body)).

(** A world in which every request is rejected. *)
Definition unreachable {J} (k : nat) : completion (Response J) :=
  Throw "ECONNREFUSED".

Definition sample_limits : Limits := mkLimits 100 2048 10240.

Definition sample_server (uuid : string) (nest_id : Z) : RawServer :=
  {| attr_uuid := uuid; attr_name := "srv-" +:+ uuid;
     attr_limits := sample_limits; attr_nest_id := nest_id |}.

(** Two pages: a game server (nest 1) and a bot (nest 5), then a game
    server (nest 6) and a database (nest 7). *)
Definition sample_page1 : Page :=
  {| page_data := [sample_server "a" 1; sample_server "b" 5];
     links_next := Some "https://panel/api/application/servers?page=2" |}.

Definition sample_page2 : Page :=
  {| page_data := [sample_server "c" 6; sample_server "d" 7];
     links_next := None |}.

(** Snapshots over and within [sample_limits]. *)
Definition over_resources : Resources := mkResources 150 1073741824 0.
Definition within_resources : Resources := mkResources 10 1073741824 0.

(** An evaluation whose two clock readings agree. *)
Definition sample_eval (uuid : string) (nest : Z) (resources : Resources)
    (now : Z) : Evaluation :=
  mkEvaluation uuid sample_limits nest resources now now.

(** A breach of the bot "b" that starts at 0 and is evaluated again after
    7200 s and after 7300 s. *)
Definition sample_episode : list Evaluation :=
  [sample_eval "b" 5 over_resources 0;
   sample_eval "b" 5 over_resources 7200000;
   sample_eval "b" 5 over_resources 7300000].

(** A record that started at [start] and is marked as reported. *)
Definition mkReported (start : Z) : AbuseLog.OverLimitEntry :=
  {| AbuseLog.startTime := start; AbuseLog.reported := true;
     AbuseLog.isOverLimit := Some true |}.

(** A cycle at 18000 s in which the directory holds the game server "a"
    (nest 1) only, and every server is over its limits. *)
Definition game_cycle : AbuseLog.CycleWorld :=
  {| AbuseLog.pageWorlds := [answers (mkPage [sample_server "a" 1] None)];
     AbuseLog.resourceWorld := λ _, answers over_resources;
     AbuseLog.clock := λ _, (18000000, 18000000) |}.


(** How many times the kill signal is sent to [uuid]. *)
Fixpoint killCount (uuid : string) (events : list Event) : nat :=
  match events with
  | [] => 0
  | e :: events' =>
    (if decide (e = EKill uuid) then 1 else 0) + killCount uuid events'
  end.

(** Whether the record of [uuid], if there is one, is marked as reported. *)
Definition marked (tracker : gmap string AbuseLog.OverLimitEntry)
    (uuid : string) : bool :=
  match tracker !! uuid with
  | Some e => AbuseLog.reported e
  | None => false
  end.

(** The breach predicate on bytes: a limit of [m] MB is [m * 2 ^ 20]
    bytes. *)
Definition breach_bytes (l : Limits) (r : Resources) : Prop :=
  ((0 < cpu l ∧ cpu l <= cpu_absolute r)
   ∨ (0 < memory l ∧ memory l * 1048576 <= memory_bytes r)
   ∨ (0 < disk l ∧ disk l * 1048576 <= disk_bytes r))%Q.

(** A snapshot that uses at least as much as another one. *)
Definition uses_at_least (r r' : Resources) : Prop :=
  (cpu_absolute r <= cpu_absolute r'
   ∧ memory_bytes r <= memory_bytes r'
   ∧ disk_bytes r <= disk_bytes r')%Q.

(** A server of the listing of index.js, and webhook outcomes. *)
Definition index_server : Index.ServerEntry :=
  index_entry (sample_server "b" 5).

Definition delivered : completion (Response unit) :=
  Normal (mkResponse 204 (Normal tt)).

Definition refused : completion (Response unit) := Throw "ECONNREFUSED".

(** The events of a run with every sleep set to [ms]. *)
Definition withDelay (ms : Z) (events : list Event) : list Event :=
  map (λ e, match e with EDelay _ => EDelay ms | _ => e end) events.

(** The records of a tracker: each carries [isOverLimit = true] and the
    first clock reading of an evaluation, among [evs], that found its
    instance over its limits. *)
Definition recordsFrom (evs : list Evaluation)
    (tracker : gmap string AbuseLog.OverLimitEntry) : Prop :=
  ∀ uuid e, tracker !! uuid = Some e →
    AbuseLog.isOverLimit e = Some true
    ∧ ∃ ev, ev ∈ evs ∧ ev_uuid ev = uuid
            ∧ AbuseLog.overLimit (ev_limits ev) (ev_resources ev) = true
            ∧ AbuseLog.startTime e = ev_now1 ev.

(** Seven servers of the listing, "s0" to "s6". *)
Definition seven_servers : list AbuseLog.ServerEntry :=
  map (λ u, abuselog_entry (sample_server u 5))
    ["s0"; "s1"; "s2"; "s3"; "s4"; "s5"; "s6"].

(** The sample episode followed by the termination at 10800 s and, the
    breach going on, a new episode that is reported at 18060 s. *)
Definition long_breach : list Evaluation :=
  [sample_eval "b" 5 over_resources 0;
   sample_eval "b" 5 over_resources 7200000;
   sample_eval "b" 5 over_resources 10800000;
   sample_eval "b" 5 over_resources 10860000;
   sample_eval "b" 5 over_resources 18060000].

(** What [fetchWithRetry] returns in the world [w], at any address. *)
Definition fetched {J} (w : nat → completion (Response J)) : option J :=
  valueOf (AbuseLog.fetchWithRetry "" w 0 AbuseLog.RETRY_LIMIT).2.

(** Whether index.js holds a record for [uuid] that says [reported]. *)
Definition index_marked (tracker : gmap string Index.OverLimitEntry)
    (uuid : string) : bool :=
  match tracker !! uuid with
  | Some e => Index.reported e
  | None => false
  end.

(** Events that are requests and sleeps only. *)
Definition requestsOnly (events : list Event) : Prop :=
  Forall (λ e, match e with EFetch _ | EDelay _ => True | _ => False end)
    events.

(** The pauses between batches among the events of a cycle. *)
Definition pausesOf (events : list Event) : nat :=
  length (filter (λ ms, ms = AbuseLog.DELAY_BETWEEN_BATCHES_MS)
            (delaysOf events)).

(** The gateway times out on every request for a page. *)
Definition world_504_page (k : nat) : completion (Response Page) :=
  Normal (mkResponse 504 (Throw "no body")).

(** A cycle in which the second page of the directory cannot be fetched. *)
Definition broken_cycle : AbuseLog.CycleWorld :=
  {| AbuseLog.pageWorlds := [answers sample_page1; unreachable];
     AbuseLog.resourceWorld := λ _, answers over_resources;
     AbuseLog.clock := λ _, (10800000, 10800000) |}.

(** A cycle over one page of seven bots, all within their limits. *)
Definition seven_cycle : AbuseLog.CycleWorld :=
  {| AbuseLog.pageWorlds :=
       [answers (mkPage (map (λ u, sample_server u 5)
                           ["s0"; "s1"; "s2"; "s3"; "s4"; "s5"; "s6"]) None)];
     AbuseLog.resourceWorld := λ _, answers within_resources;
     AbuseLog.clock := λ _, (0, 0) |}.

(** An entry of abuse log script.js without its nest. *)
Definition forgetNest (e : AbuseLog.ServerEntry) : Index.ServerEntry :=
  {| Index.uuid := AbuseLog.uuid e; Index.limits := AbuseLog.limits e;
     Index.name := AbuseLog.name e |}.

(** Whether the character [c] occurs in [s]. *)
Fixpoint hasChar (c : ascii) (s : string) : bool :=
  match s with
  | EmptyString => false
  | String a s' => Ascii.eqb a c || hasChar c s'
  end.

(** The breach of [uuid] goes on through [evs], on a record started at
    [start]: every evaluation of [uuid] among [evs] finds it over its limits
    and comes before the kill threshold of its nest. *)
Definition breachGoesOn (uuid : string) (start : Z) (evs : list Evaluation)
    : Prop :=
  ∀ ev, ev ∈ evs → ev_uuid ev = uuid →
    AbuseLog.overLimit (ev_limits ev) (ev_resources ev) = true
    ∧ ev_now2 ev - start
      < 1000 * AbuseLog.customKillThresholdSeconds (ev_nest ev).

(** Whether one of the evaluations of [uuid] among [evs] comes at or after
    the report threshold, on a record started at [start]. *)
Definition reportDue (uuid : string) (start : Z) (evs : list Evaluation)
    : bool :=
  existsb (λ ev, bool_decide (ev_uuid ev = uuid)
                 && (1000 * AbuseLog.REPORT_THRESHOLD_SECONDS
                     <=? ev_now2 ev - start)) evs.

(** The escalation actions among the events of a run: everything but the
    requests and the sleeps. *)
Fixpoint escalationsOf (events : list Event) : list Event :=
  match events with
  | [] => []
  | EFetch _ :: events' => escalationsOf events'
  | EDelay _ :: events' => escalationsOf events'
  | e :: events' => e :: escalationsOf events'
  end.


(** The calls of [fetch] among the events of a run: every event but the
    sleeps. *)
Fixpoint requestCount (events : list Event) : nat :=
  match events with
  | [] => 0
  | EDelay _ :: events' => requestCount events'
  | _ :: events' => S (requestCount events')
  end.

(** * Properties *)

(** ** Comparisons *)

Lemma js_gt_true (a b : Q) : js_gt a b = true ↔ (b < a)%Q.
Proof.
  unfold js_gt. rewrite negb_true_iff, <- not_true_iff_false, Qle_bool_iff.
  split; [apply Qnot_le_lt | apply Qlt_not_le].
Qed.

Lemma js_ge_true (a b : Q) : js_ge a b = true ↔ (b <= a)%Q.
Proof. apply Qle_bool_iff. Qed.

Lemma js_gt_zero_false (a : Q) : (a == 0)%Q → js_gt a 0 = false.
Proof.
  intros Ha. apply not_true_iff_false. rewrite js_gt_true, Ha.
  apply Qlt_irrefl.
Qed.

Lemma js_gt_false (a b : Q) : js_gt a b = false ↔ (a <= b)%Q.
Proof.
  unfold js_gt. rewrite negb_false_iff. apply Qle_bool_iff.
Qed.

(** The comparison made in GB is the comparison of bytes with the limit in
    MB times [2 ^ 20]. *)
Lemma gb_comparison (limit_mb usage_bytes : Q) :
  (limit_mb / 1024 <= usage_bytes / 1024 ^ 3 ↔
   limit_mb * 1048576 <= usage_bytes)%Q.
Proof.
  assert (H1 : (0 < 1024 ^ 3)%Q) by reflexivity.
  assert (H2 : (limit_mb / 1024 == limit_mb * 1048576 / 1024 ^ 3)%Q).
  { unfold Qdiv. rewrite <- Qmult_assoc. apply Qmult_comp; reflexivity. }
  rewrite H2. unfold Qdiv. split; intros H.
  - apply Qmult_le_r with (z := (/ 1024 ^ 3)%Q); [reflexivity | exact H].
  - apply Qmult_le_r; [reflexivity | exact H].
Qed.

(** ** The breach predicate *)

Section Breach.

Variables (l : Limits) (r : Resources).

Lemma overLimit_breach_spec : AbuseLog.overLimit l r = true ↔ breach_spec l r.
Proof.
  unfold AbuseLog.overLimit, breach_spec. cbv zeta.
  rewrite !orb_true_iff, !andb_true_iff, !js_gt_true, !js_ge_true.
  tauto.
Qed.

Lemma overLimit_unlimited :
  (cpu l == 0)%Q → (memory l == 0)%Q → (disk l == 0)%Q →
  AbuseLog.overLimit l r = false.
Proof.
  intros Hc Hm Hd. unfold AbuseLog.overLimit. cbv zeta.
  by rewrite !js_gt_zero_false.
Qed.

Lemma overLimit_at_a_limit : at_a_limit l r → AbuseLog.overLimit l r = true.
Proof.
  intros H. apply overLimit_breach_spec. unfold breach_spec.
  destruct H as [[H0 H]|[[H0 H]|[H0 H]]]; [left | right; left | right; right];
    (split; [exact H0 | rewrite H; apply Qle_refl]).
Qed.

End Breach.

(** C1.  For all limits and every snapshot, [overLimit] (lines 245-249 of
    abuse log script.js) holds exactly when one of the limits that are set
    (greater than zero) is met or exceeded, memory and disk being compared in
    GB; with the three limits at [0] it is false whatever the snapshot, and a
    snapshot exactly at a limit that is set is over the limit. *)
Theorem overLimit_is_breach_predicate (l : Limits) (r : Resources) :
  (AbuseLog.overLimit l r = true ↔ breach_spec l r)
  ∧ ((cpu l == 0)%Q → (memory l == 0)%Q → (disk l == 0)%Q →
     AbuseLog.overLimit l r = false)
  ∧ (at_a_limit l r → AbuseLog.overLimit l r = true).
Proof.
  split; [apply overLimit_breach_spec |].
  split; [apply overLimit_unlimited | apply overLimit_at_a_limit].
Qed.

(** A server with 2048 MB of memory that uses exactly 2 GB, and a server
    without limits. *)
Lemma overLimit_is_breach_predicate_witness :
  AbuseLog.overLimit (mkLimits 0 2048 0) (mkResources 350 2147483648 0) = true
  ∧ AbuseLog.overLimit (mkLimits 0 0 0) (mkResources 350 2147483648 9) = false.
Proof.
  split.
  - apply (proj2 (proj2 (overLimit_is_breach_predicate
                           (mkLimits 0 2048 0) (mkResources 350 2147483648 0)))).
    right; left. split; reflexivity.
  - apply (proj1 (proj2 (overLimit_is_breach_predicate
                           (mkLimits 0 0 0) (mkResources 350 2147483648 9))));
      reflexivity.
Defined.

(** C10.  The conditions of the two scripts (index.js lines 81-85, abuse
    log script.js lines 245-249) give the same boolean on all limits and
    every snapshot. *)
Theorem overLimit_variants_agree (l : Limits) (r : Resources) :
  Index.overLimit l r = AbuseLog.overLimit l r.
Proof.
  unfold Index.overLimit, AbuseLog.overLimit. reflexivity.
Qed.

(** ** fetchWithRetry *)

Module FetchWithRetryFacts.

Import AbuseLog.

(** The four ways through one call. *)
Lemma fetchWithRetry_rejected {J} url
    (world : nat → completion (Response J)) k retries msg :
  world k = Throw msg →
  fetchWithRetry url world k retries = ([EFetch url], Normal None).
Proof. intros H. simp fetchWithRetry. by rewrite H. Qed.

Lemma fetchWithRetry_ok {J} url
    (world : nat → completion (Response J)) k retries response :
  world k = Normal response → ok response = true →
  fetchWithRetry url world k retries =
  ([EFetch url],
   match json response with
   | Normal j => Normal (Some j)
   | Throw _ => Normal None
   end).
Proof.
  intros H Hok. simp fetchWithRetry. rewrite H. cbn. rewrite Hok. cbn.
  by destruct (json response).
Qed.

Lemma fetchWithRetry_retry {J} url
    (world : nat → completion (Response J)) k retries response :
  world k = Normal response → status response = 504 → retries > 0 →
  fetchWithRetry url world k retries =
  (EFetch url :: EDelay DELAY_BETWEEN_CHECKS_MS
     :: (fetchWithRetry url world (S k) (retries - 1)).1,
   (fetchWithRetry url world (S k) (retries - 1)).2).
Proof.
  intros H Hst Hr. rewrite fetchWithRetry_equation_1, H. cbn.
  assert (Hok : ok response = false) by (unfold ok; rewrite Hst; reflexivity).
  rewrite Hok. cbn. destruct (decide _) as [a|n]; [reflexivity |].
  exfalso. apply n. by split.
Qed.

Lemma fetchWithRetry_give_up {J} url
    (world : nat → completion (Response J)) k retries response :
  world k = Normal response → ok response = false →
  ¬ (status response = 504 ∧ retries > 0) →
  fetchWithRetry url world k retries = ([EFetch url], Normal None).
Proof.
  intros H Hok Hn. rewrite fetchWithRetry_equation_1, H. cbn.
  rewrite Hok. cbn. by destruct (decide _).
Qed.

Lemma fetchWithRetry_never_throws {J} url
    (world : nat → completion (Response J)) k retries :
  ∃ v, (fetchWithRetry url world k retries).2 = Normal v.
Proof.
  funelim (fetchWithRetry url world k retries); cbn; eauto.
  destruct (json response); cbn; eauto.
Qed.

Lemma fetchWithRetry_delays {J} url
    (world : nat → completion (Response J)) k retries :
  Forall (λ ms, ms = DELAY_BETWEEN_CHECKS_MS)
    (delaysOf (fetchWithRetry url world k retries).1).
Proof.
  funelim (fetchWithRetry url world k retries); cbn; auto.
Qed.

Lemma fetchWithRetry_fetchCount {J} url
    (world : nat → completion (Response J)) k retries :
  (fetchCount (fetchWithRetry url world k retries).1
   ≤ 1 + Z.to_nat retries)%nat.
Proof.
  funelim (fetchWithRetry url world k retries); cbn in *; lia.
Qed.

Lemma fetchWithRetry_delayCount {J} url
    (world : nat → completion (Response J)) k retries :
  (length (delaysOf (fetchWithRetry url world k retries).1)
   ≤ Z.to_nat retries)%nat.
Proof.
  funelim (fetchWithRetry url world k retries); cbn in *; lia.
Qed.

End FetchWithRetryFacts.

(** A world that answers 504 to every request. *)
Lemma fetchWithRetry_streak {J} url
    (world : nat → completion (Response J)) k :
  (∀ i, ∃ response, world i = Normal response ∧ status response = 504) →
  AbuseLog.fetchWithRetry url world k AbuseLog.RETRY_LIMIT =
  ([EFetch url; EDelay AbuseLog.DELAY_BETWEEN_CHECKS_MS;
    EFetch url; EDelay AbuseLog.DELAY_BETWEEN_CHECKS_MS;
    EFetch url; EDelay AbuseLog.DELAY_BETWEEN_CHECKS_MS;
    EFetch url], Normal None).
Proof.
  intros Hw. unfold AbuseLog.RETRY_LIMIT.
  destruct (Hw k) as (r0 & H0 & S0). destruct (Hw (S k)) as (r1 & H1 & S1).
  destruct (Hw (S (S k))) as (r2 & H2 & S2).
  destruct (Hw (S (S (S k)))) as (r3 & H3 & S3).
  rewrite (FetchWithRetryFacts.fetchWithRetry_retry _ _ _ _ _ H0 S0) by lia.
  rewrite (FetchWithRetryFacts.fetchWithRetry_retry _ _ _ _ _ H1 S1) by lia.
  rewrite (FetchWithRetryFacts.fetchWithRetry_retry _ _ _ _ _ H2 S2) by lia.
  rewrite (FetchWithRetryFacts.fetchWithRetry_give_up _ _ _ _ _ H3).
  - reflexivity.
  - unfold ok. rewrite S3. reflexivity.
  - intros [_ Hr]. lia.
Qed.

(** C8.  Whatever the URL and the answers of the world, one call of
    [fetchWithRetry] (abuse log script.js, lines 168-186) returns the parsed
    body when the response is successful; sleeps the fixed
    [DELAY_BETWEEN_CHECKS_MS] and calls itself again exactly when the status
    is 504 and [retries > 0]; and in every other case (rejected request,
    body that does not parse, other status, no retries left) returns [null]
    after that single request.  It never throws to its caller, and every
    sleep of a run has the same length. *)
Theorem fetchWithRetry_contract {J} (url : string)
    (world : nat → completion (Response J)) (k : nat) (retries : Z) :
  let r := AbuseLog.fetchWithRetry url world k retries in
  (∀ response j,
     world k = Normal response → ok response = true →
     json response = Normal j →
     r = ([EFetch url], Normal (Some j)))
  ∧ (∀ response,
       world k = Normal response → status response = 504 → retries > 0 →
       r = (EFetch url :: EDelay AbuseLog.DELAY_BETWEEN_CHECKS_MS
              :: (AbuseLog.fetchWithRetry url world (S k) (retries - 1)).1,
            (AbuseLog.fetchWithRetry url world (S k) (retries - 1)).2))
  ∧ ((∃ msg, world k = Throw msg)
     ∨ (∃ response, world k = Normal response
          ∧ ((ok response = true ∧ ∃ msg, json response = Throw msg)
             ∨ (ok response = false
                ∧ ¬ (status response = 504 ∧ retries > 0)))) →
     r = ([EFetch url], Normal None))
  ∧ (∃ v, r.2 = Normal v)
  ∧ Forall (λ ms, ms = AbuseLog.DELAY_BETWEEN_CHECKS_MS) (delaysOf r.1).
Proof.
  cbv zeta. repeat split.
  - intros response j H Hok Hj.
    rewrite (FetchWithRetryFacts.fetchWithRetry_ok _ _ _ _ _ H Hok).
    by rewrite Hj.
  - intros response H Hst Hr.
    by apply FetchWithRetryFacts.fetchWithRetry_retry with (response := response).
  - intros [[msg H]|(response & H & [[Hok [msg Hj]]|[Hok Hn]])].
    + by apply FetchWithRetryFacts.fetchWithRetry_rejected with (msg := msg).
    + rewrite (FetchWithRetryFacts.fetchWithRetry_ok _ _ _ _ _ H Hok).
      by rewrite Hj.
    + by apply FetchWithRetryFacts.fetchWithRetry_give_up
        with (response := response).
  - apply FetchWithRetryFacts.fetchWithRetry_never_throws.
  - apply FetchWithRetryFacts.fetchWithRetry_delays.
Qed.

Lemma fetchWithRetry_contract_witness :
  AbuseLog.fetchWithRetry "u" world_504_then_ok 1 2
  = ([EFetch "u"], Normal (Some 7))
  ∧ AbuseLog.fetchWithRetry "u" world_504_then_ok 0 3
    = ([EFetch "u"; EDelay 10000; EFetch "u"], Normal (Some 7))
  ∧ AbuseLog.fetchWithRetry "u" world_504_then_ok 0 0
    = ([EFetch "u"], Normal None).
Proof.
  split; [| split].
  - apply (proj1 (fetchWithRetry_contract "u" world_504_then_ok 1 2)
             (mkResponse 200 (Normal 7)) 7); reflexivity.
  - rewrite (proj1 (proj2 (fetchWithRetry_contract "u" world_504_then_ok 0 3))
               (mkResponse 504 (Throw "no body"))); [| reflexivity ..].
    reflexivity.
  - apply (proj1 (proj2 (proj2
             (fetchWithRetry_contract "u" world_504_then_ok 0 0)))).
    right. exists (mkResponse 504 (Throw "no body")).
    split; [reflexivity |]. right. split; [reflexivity |].
    intros [_ H]. discriminate H.
Defined.

(** C9.  [fetchWithRetry] is a total function: it is defined by recursion
    on [retries], every recursive call being made with [retries - 1] under
    the guard [retries > 0].  A run makes at most [1 + retries] requests and
    [retries] sleeps and completes normally; called as the scripts call it,
    with [RETRY_LIMIT], that is at most 4 requests and 3 retries, a bound
    that a world answering 504 for ever reaches. *)
Theorem fetchWithRetry_bounded {J} (url : string)
    (world : nat → completion (Response J)) (k : nat) (retries : Z) :
  let r := AbuseLog.fetchWithRetry url world k retries in
  (fetchCount r.1 ≤ 1 + Z.to_nat retries)%nat
  ∧ (length (delaysOf r.1) ≤ Z.to_nat retries)%nat
  ∧ (∃ v, r.2 = Normal v)
  ∧ (∀ response,
       world k = Normal response → status response = 504 → retries > 0 →
       r.2 = (AbuseLog.fetchWithRetry url world (S k) (retries - 1)).2
       ∧ (Z.to_nat (retries - 1) < Z.to_nat retries)%nat)
  ∧ (let r3 := AbuseLog.fetchWithRetry url world k AbuseLog.RETRY_LIMIT in
     (fetchCount r3.1 ≤ 4)%nat ∧ (length (delaysOf r3.1) ≤ 3)%nat
     ∧ ((∀ i, ∃ response, world i = Normal response ∧ status response = 504) →
        fetchCount r3.1 = 4%nat ∧ length (delaysOf r3.1) = 3%nat
        ∧ r3.2 = Normal None)).
Proof.
  cbv zeta. split; [apply FetchWithRetryFacts.fetchWithRetry_fetchCount |].
  split; [apply FetchWithRetryFacts.fetchWithRetry_delayCount |].
  split; [apply FetchWithRetryFacts.fetchWithRetry_never_throws |].
  split.
  - intros response H Hst Hr.
    rewrite (FetchWithRetryFacts.fetchWithRetry_retry _ _ _ _ _ H Hst Hr).
    split; [reflexivity | lia].
  - split; [apply (FetchWithRetryFacts.fetchWithRetry_fetchCount url world k 3) |].
    split; [apply (FetchWithRetryFacts.fetchWithRetry_delayCount url world k 3) |].
    intros Hw. rewrite (fetchWithRetry_streak url world k Hw). by cbn.
Qed.

Lemma fetchWithRetry_bounded_witness :
  fetchCount (AbuseLog.fetchWithRetry "u" world_504 0 AbuseLog.RETRY_LIMIT).1
  = 4%nat
  ∧ (AbuseLog.fetchWithRetry "u" world_504 0 AbuseLog.RETRY_LIMIT).2
    = Normal None.
Proof.
  destruct (proj2 (proj2 (proj2 (proj2 (proj2
              (fetchWithRetry_bounded "u" world_504 0 0))))))
    as (Hf & _ & Hr).
  - intros i. exists (mkResponse 504 (Throw "no body")). by split.
  - by split.
Defined.

(** ** Pagination *)

Lemma requestsOf_app events events' :
  requestsOf (events ++ events') = requestsOf events ++ requestsOf events'.
Proof.
  induction events as [|[] events IH]; cbn; by rewrite ?IH.
Qed.

(** [nest === 1 || nest === 6] is membership in the excluded nests. *)
Lemma special_nest_true (server : RawServer) :
  (attr_nest_id server =? 1) || (attr_nest_id server =? 6) = true
  ↔ ¬ included server.
Proof.
  unfold included, EXCLUDED_NESTS.
  rewrite orb_true_iff, !Z.eqb_eq, !elem_of_cons, elem_of_nil.
  destruct (decide (attr_nest_id server = 1));
    destruct (decide (attr_nest_id server = 6)); tauto.
Qed.

Lemma special_nest_false (server : RawServer) :
  (attr_nest_id server =? 1) || (attr_nest_id server =? 6) = false
  ↔ included server.
Proof.
  rewrite <- not_true_iff_false, special_nest_true.
  destruct (decide (included server)); tauto.
Qed.

(** ** The directory of abuse log script.js *)
Module AbuseLogDirectory.
Import AbuseLog.

Lemma abuselog_fetchWithRetry_never_throws {J} url
    (world : nat → completion (Response J)) k retries :
  ∃ v, (fetchWithRetry url world k retries).2 = Normal v.
Proof. apply FetchWithRetryFacts.fetchWithRetry_never_throws. Qed.

Lemma abuselog_fetchWithRetry_requests {J} url
    (world : nat → completion (Response J)) k retries u :
  u ∈ requestsOf (fetchWithRetry url world k retries).1 ↔ u = url.
Proof.
  funelim (fetchWithRetry url world k retries); cbn in *;
    rewrite ?elem_of_cons, ?elem_of_nil; try tauto.
  rewrite H. tauto.
Qed.

(** The address matters to the events only. *)
Lemma abuselog_fetchWithRetry_value_url {J} url url'
    (world : nat → completion (Response J)) k retries :
  (fetchWithRetry url world k retries).2
  = (fetchWithRetry url' world k retries).2.
Proof.
  funelim (fetchWithRetry url world k retries).
  - by erewrite (FetchWithRetryFacts.fetchWithRetry_rejected url').
  - erewrite (FetchWithRetryFacts.fetchWithRetry_ok url') by eassumption.
    cbn. by destruct (json response).
  - destruct a as [Hst Hr].
    erewrite (FetchWithRetryFacts.fetchWithRetry_retry url') by eassumption.
    cbn. apply H.
  - by erewrite (FetchWithRetryFacts.fetchWithRetry_give_up url').
Qed.

Lemma abuselog_fetched_value url w :
  (fetchWithRetry url w 0 RETRY_LIMIT).2 = Normal (abuselog_fetched w).
Proof.
  unfold abuselog_fetched.
  rewrite (abuselog_fetchWithRetry_value_url "" url).
  destruct (abuselog_fetchWithRetry_never_throws url w 0 RETRY_LIMIT) as [v Hv].
  by rewrite Hv.
Qed.

Lemma abuselog_fold_left_pushServer servers acc :
  fold_left pushServer servers acc
  = acc ++ map abuselog_entry (filter included servers).
Proof.
  revert acc. induction servers as [|s servers IH]; intros acc.
  - cbn. by rewrite app_nil_r.
  - change (fold_left pushServer (s :: servers) acc)
      with (fold_left pushServer servers (pushServer acc s)).
    rewrite IH. unfold pushServer. rewrite filter_cons.
    destruct (decide (included s)) as [Hi|Hn].
    + rewrite (proj2 (special_nest_false _) Hi). by rewrite <- app_assoc.
    + rewrite (proj2 (special_nest_true _) Hn). done.
Qed.

Lemma abuselog_loop_done worlds next acc :
  or_null next = None →
  getAllServers_loop worlds next acc = Some ([], Normal acc).
Proof. intros Hn. destruct worlds; cbn; by rewrite Hn. Qed.

Lemma abuselog_loop_request w worlds next url acc :
  or_null next = Some url →
  getAllServers_loop (w :: worlds) next acc
  = let r := fetchWithRetry url w 0 RETRY_LIMIT in
    match abuselog_fetched w with
    | None => Some (r.1, Normal [])
    | Some data =>
      match getAllServers_loop worlds (links_next data)
              (fold_left pushServer (page_data data) acc) with
      | Some r' => Some (r.1 ++ r'.1, r'.2)
      | None => None
      end
    end.
Proof.
  intros Hn. cbn [getAllServers_loop]. rewrite Hn. cbv zeta.
  rewrite (abuselog_fetched_value url w). by destruct (abuselog_fetched w).
Qed.

(** A walk along the links determines what the loop returns and which
    addresses it requests. *)
Lemma abuselog_loop_crawl worlds next urls pages complete acc :
  crawl abuselog_fetched worlds next urls pages complete →
  ∃ events,
    getAllServers_loop worlds next acc
    = Some (events,
            Normal (if complete
                    then acc ++ map abuselog_entry
                                  (filter included (instancesOf pages))
                    else []))
    ∧ ∀ u, u ∈ requestsOf events ↔ u ∈ urls.
Proof.
  intros Hc. revert acc.
  induction Hc as [worlds next Hn | w worlds next url Hn Hf
                  | w worlds next url data urls pages complete Hn Hf Hc IH];
    intros acc.
  - exists []. rewrite (abuselog_loop_done _ _ _ Hn), app_nil_r. done.
  - eexists. rewrite (abuselog_loop_request _ _ _ _ _ Hn), Hf. split; [done |].
    intros u. cbn [fst]. rewrite abuselog_fetchWithRetry_requests.
    by rewrite list_elem_of_singleton.
  - destruct (IH (fold_left pushServer (page_data data) acc))
      as (events & Heq & Hev).
    eexists. rewrite (abuselog_loop_request _ _ _ _ _ Hn), Hf. cbv zeta.
    rewrite Heq. cbn [fst snd]. split.
    + f_equal. f_equal. destruct complete; [| done]. f_equal.
      rewrite abuselog_fold_left_pushServer, <- app_assoc. f_equal.
      unfold instancesOf. cbn. by rewrite filter_app, map_app.
    + intros u.
      rewrite requestsOf_app, elem_of_app, abuselog_fetchWithRetry_requests, Hev.
      by rewrite elem_of_cons.
Qed.

(** Whenever the loop returns, it has walked along the links to the end
    or to a request without data. *)
Lemma abuselog_loop_returns worlds next acc r :
  getAllServers_loop worlds next acc = Some r →
  ∃ urls pages complete,
    crawl abuselog_fetched worlds next urls pages complete.
Proof.
  revert next acc r. induction worlds as [|w worlds IH]; intros next acc r H.
  - destruct (or_null next) as [url|] eqn:Hn.
    + cbn in H. by rewrite Hn in H.
    + exists [], [], true. by constructor.
  - destruct (or_null next) as [url|] eqn:Hn.
    + rewrite (abuselog_loop_request _ _ _ _ _ Hn) in H. cbv zeta in H.
      destruct (abuselog_fetched w) as [data|] eqn:Hf.
      * destruct (getAllServers_loop worlds (links_next data) _) as [r'|]
          eqn:Hr; [| done].
        destruct (IH _ _ _ Hr) as (urls & pages & complete & Hc).
        exists (url :: urls), (data :: pages), complete.
        by eapply crawl_page.
      * exists [url], [], false. by constructor.
    + exists [], [], true. by constructor.
Qed.

End AbuseLogDirectory.

(** ** The directory of index.js *)
Module IndexDirectory.
Import Index.

(** The two versions of [fetchWithRetry] return the same value; they
    differ in the length of the sleep. *)
Lemma index_fetchWithRetry_value {J} url url'
    (world : nat → completion (Response J)) k retries :
  (fetchWithRetry url world k retries).2
  = (AbuseLog.fetchWithRetry url' world k retries).2.
Proof.
  funelim (fetchWithRetry url world k retries).
  - by erewrite (FetchWithRetryFacts.fetchWithRetry_rejected url').
  - erewrite (FetchWithRetryFacts.fetchWithRetry_ok url') by eassumption.
    cbn. by destruct (json response).
  - destruct a as [Hst Hr].
    erewrite (FetchWithRetryFacts.fetchWithRetry_retry url') by eassumption.
    cbn. apply H.
  - by erewrite (FetchWithRetryFacts.fetchWithRetry_give_up url').
Qed.

Lemma index_fetchWithRetry_never_throws {J} url
    (world : nat → completion (Response J)) k retries :
  ∃ v, (fetchWithRetry url world k retries).2 = Normal v.
Proof.
  rewrite (index_fetchWithRetry_value url url).
  apply FetchWithRetryFacts.fetchWithRetry_never_throws.
Qed.

Lemma index_fetchWithRetry_requests {J} url
    (world : nat → completion (Response J)) k retries u :
  u ∈ requestsOf (fetchWithRetry url world k retries).1 ↔ u = url.
Proof.
  funelim (fetchWithRetry url world k retries); cbn in *;
    rewrite ?elem_of_cons, ?elem_of_nil; try tauto.
  rewrite H. tauto.
Qed.

Lemma index_fetchWithRetry_value_url {J} url url'
    (world : nat → completion (Response J)) k retries :
  (fetchWithRetry url world k retries).2
  = (fetchWithRetry url' world k retries).2.
Proof.
  by rewrite (index_fetchWithRetry_value url ""),
    (index_fetchWithRetry_value url' "").
Qed.

Lemma index_fetched_value url w :
  (fetchWithRetry url w 0 DEFAULT_RETRIES).2 = Normal (index_fetched w).
Proof.
  unfold index_fetched.
  rewrite (index_fetchWithRetry_value_url "" url).
  destruct (index_fetchWithRetry_never_throws url w 0 DEFAULT_RETRIES) as [v Hv].
  by rewrite Hv.
Qed.

Lemma index_fold_left_pushServer servers acc :
  fold_left pushServer servers acc
  = acc ++ map index_entry (filter included servers).
Proof.
  revert acc. induction servers as [|s servers IH]; intros acc.
  - cbn. by rewrite app_nil_r.
  - change (fold_left pushServer (s :: servers) acc)
      with (fold_left pushServer servers (pushServer acc s)).
    rewrite IH. unfold pushServer. rewrite filter_cons.
    destruct (decide (included s)) as [Hi|Hn].
    + rewrite bool_decide_eq_false_2 by exact Hi. cbn [negb].
      by rewrite <- app_assoc.
    + rewrite bool_decide_eq_true_2; [done |].
      by destruct (decide (attr_nest_id s ∈ [1; 6])).
Qed.

Lemma index_loop_done worlds next acc :
  or_null next = None →
  getAllServers_loop worlds next acc = Some ([], Normal acc).
Proof. intros Hn. destruct worlds; cbn; by rewrite Hn. Qed.

Lemma index_loop_request w worlds next url acc :
  or_null next = Some url →
  getAllServers_loop (w :: worlds) next acc
  = let r := fetchWithRetry url w 0 DEFAULT_RETRIES in
    match index_fetched w with
    | None => Some (r.1, Normal [])
    | Some data =>
      match getAllServers_loop worlds (links_next data)
              (fold_left pushServer (page_data data) acc) with
      | Some r' => Some (r.1 ++ r'.1, r'.2)
      | None => None
      end
    end.
Proof.
  intros Hn. cbn [getAllServers_loop]. rewrite Hn. cbv zeta.
  rewrite (index_fetched_value url w). by destruct (index_fetched w).
Qed.

(** A walk along the links determines what the loop returns and which
    addresses it requests. *)
Lemma index_loop_crawl worlds next urls pages complete acc :
  crawl index_fetched worlds next urls pages complete →
  ∃ events,
    getAllServers_loop worlds next acc
    = Some (events,
            Normal (if complete
                    then acc ++ map index_entry
                                  (filter included (instancesOf pages))
                    else []))
    ∧ ∀ u, u ∈ requestsOf events ↔ u ∈ urls.
Proof.
  intros Hc. revert acc.
  induction Hc as [worlds next Hn | w worlds next url Hn Hf
                  | w worlds next url data urls pages complete Hn Hf Hc IH];
    intros acc.
  - exists []. rewrite (index_loop_done _ _ _ Hn), app_nil_r. done.
  - eexists. rewrite (index_loop_request _ _ _ _ _ Hn), Hf. split; [done |].
    intros u. cbn [fst]. rewrite index_fetchWithRetry_requests.
    by rewrite list_elem_of_singleton.
  - destruct (IH (fold_left pushServer (page_data data) acc))
      as (events & Heq & Hev).
    eexists. rewrite (index_loop_request _ _ _ _ _ Hn), Hf. cbv zeta.
    rewrite Heq. cbn [fst snd]. split.
    + f_equal. f_equal. destruct complete; [| done]. f_equal.
      rewrite index_fold_left_pushServer, <- app_assoc. f_equal.
      unfold instancesOf. cbn. by rewrite filter_app, map_app.
    + intros u.
      rewrite requestsOf_app, elem_of_app, index_fetchWithRetry_requests, Hev.
      by rewrite elem_of_cons.
Qed.

(** Whenever the loop returns, it has walked along the links to the end
    or to a request without data. *)
Lemma index_loop_returns worlds next acc r :
  getAllServers_loop worlds next acc = Some r →
  ∃ urls pages complete,
    crawl index_fetched worlds next urls pages complete.
Proof.
  revert next acc r. induction worlds as [|w worlds IH]; intros next acc r H.
  - destruct (or_null next) as [url|] eqn:Hn.
    + cbn in H. by rewrite Hn in H.
    + exists [], [], true. by constructor.
  - destruct (or_null next) as [url|] eqn:Hn.
    + rewrite (index_loop_request _ _ _ _ _ Hn) in H. cbv zeta in H.
      destruct (index_fetched w) as [data|] eqn:Hf.
      * destruct (getAllServers_loop worlds (links_next data) _) as [r'|]
          eqn:Hr; [| done].
        destruct (IH _ _ _ Hr) as (urls & pages & complete & Hc).
        exists (url :: urls), (data :: pages), complete.
        by eapply crawl_page.
      * exists [url], [], false. by constructor.
    + exists [], [], true. by constructor.
Qed.

End IndexDirectory.

(** C7, as amended.  In both scripts [getAllServersFromAppAPI] returns only
    after a walk along the pagination links that ends where no link remains
    or at a request without data, and it requests exactly the addresses of
    that walk.  After a complete walk it returns, in order, the instances of
    all the pages whose nest is neither 1 nor 6; when a request yields no
    data it returns the empty list, whatever the earlier pages held; it does
    not throw.  The entries of abuse log script.js carry uuid, limits, name
    and nest; those of index.js carry uuid, limits and name. *)
Theorem getAllServersFromAppAPI_listing
    (worlds : list (nat → completion (Response Page))) :
  let url1 := AbuseLog.PANEL_URL +:+ "/api/application/servers?page=1" in
  let url1' := Index.PANEL_URL +:+ "/api/application/servers?page=1" in
  (∀ r, AbuseLog.getAllServersFromAppAPI worlds = Some r →
     ∃ urls pages complete,
       crawl abuselog_fetched worlds (Some url1) urls pages complete
       ∧ (∀ u, u ∈ requestsOf r.1 ↔ u ∈ urls)
       ∧ r.2 = Normal (listed abuselog_entry pages complete))
  ∧ (∀ urls pages complete,
       crawl abuselog_fetched worlds (Some url1) urls pages complete →
       ∃ events,
         AbuseLog.getAllServersFromAppAPI worlds
         = Some (events, Normal (listed abuselog_entry pages complete)))
  ∧ (∀ r, Index.getAllServersFromAppAPI worlds = Some r →
       ∃ urls pages complete,
         crawl index_fetched worlds (Some url1') urls pages complete
         ∧ (∀ u, u ∈ requestsOf r.1 ↔ u ∈ urls)
         ∧ r.2 = Normal (listed index_entry pages complete))
  ∧ (∀ urls pages complete,
       crawl index_fetched worlds (Some url1') urls pages complete →
       ∃ events,
         Index.getAllServersFromAppAPI worlds
         = Some (events, Normal (listed index_entry pages complete))).
Proof.
  cbv zeta. unfold AbuseLog.getAllServersFromAppAPI,
    Index.getAllServersFromAppAPI, listed.
  split; [| split; [| split]].
  - intros r Hr.
    destruct (AbuseLogDirectory.abuselog_loop_returns _ _ _ _ Hr)
      as (urls & pages & complete & Hc).
    exists urls, pages, complete. split; [exact Hc |].
    destruct (AbuseLogDirectory.abuselog_loop_crawl _ _ _ _ _ [] Hc)
      as (events & Heq & Hev).
    rewrite Heq in Hr. injection Hr as <-. cbn [fst snd].
    split; [exact Hev | by destruct complete].
  - intros urls pages complete Hc.
    destruct (AbuseLogDirectory.abuselog_loop_crawl _ _ _ _ _ [] Hc)
      as (events & Heq & _).
    exists events. rewrite Heq. by destruct complete.
  - intros r Hr.
    destruct (IndexDirectory.index_loop_returns _ _ _ _ Hr)
      as (urls & pages & complete & Hc).
    exists urls, pages, complete. split; [exact Hc |].
    destruct (IndexDirectory.index_loop_crawl _ _ _ _ _ [] Hc)
      as (events & Heq & Hev).
    rewrite Heq in Hr. injection Hr as <-. cbn [fst snd].
    split; [exact Hev | by destruct complete].
  - intros urls pages complete Hc.
    destruct (IndexDirectory.index_loop_crawl _ _ _ _ _ [] Hc)
      as (events & Heq & _).
    exists events. rewrite Heq. by destruct complete.
Qed.

(** Two pages are listed in full; a second page that cannot be fetched
    empties the listing. *)
Lemma getAllServersFromAppAPI_listing_witness :
  (∃ events,
     AbuseLog.getAllServersFromAppAPI [answers sample_page1; answers sample_page2]
     = Some (events,
             Normal [abuselog_entry (sample_server "b" 5);
                     abuselog_entry (sample_server "d" 7)]))
  ∧ (∃ events,
       AbuseLog.getAllServersFromAppAPI [answers sample_page1; unreachable]
       = Some (events, Normal [])).
Proof.
  split.
  - apply (proj1 (proj2 (getAllServersFromAppAPI_listing
                           [answers sample_page1; answers sample_page2]))
             ["/api/application/servers?page=1";
              "https://panel/api/application/servers?page=2"]
             [sample_page1; sample_page2] true).
    eapply crawl_page; [reflexivity | reflexivity |].
    eapply crawl_page; [reflexivity | reflexivity |].
    by apply crawl_end.
  - apply (proj1 (proj2 (getAllServersFromAppAPI_listing
                           [answers sample_page1; unreachable]))
             ["/api/application/servers?page=1";
              "https://panel/api/application/servers?page=2"]
             [sample_page1] false).
    eapply crawl_page; [reflexivity | reflexivity |].
    by apply crawl_no_data.
Defined.

(** C7 as stated fails on index.js: two instances that differ in their nest
    only are listed by the same entry, so the listing does not surface the
    category. *)
Lemma index_listing_drops_category :
  ¬ ∃ category : Index.ServerEntry → Z,
      ∀ server, server ∈ [sample_server "b" 5; sample_server "b" 7] →
        ∃ events entries,
          Index.getAllServersFromAppAPI [answers (mkPage [server] None)]
          = Some (events, Normal entries)
          ∧ entries ≠ []
          ∧ Forall (λ e, category e = attr_nest_id server) entries.
Proof.
  intros [category H].
  destruct (H (sample_server "b" 5)) as (ev5 & es5 & H5 & _ & F5);
    [apply elem_of_cons; by left |].
  destruct (H (sample_server "b" 7)) as (ev7 & es7 & H7 & _ & F7);
    [apply elem_of_cons; right; apply elem_of_cons; by left |].
  vm_compute in H5. vm_compute in H7.
  injection H5 as _ <-. injection H7 as _ <-.
  apply Forall_cons_1 in F5 as [F5 _]. apply Forall_cons_1 in F7 as [F7 _].
  rewrite F5 in F7. discriminate F7.
Qed.

(** ** The tracker *)

Module TrackerFacts.
Import AbuseLog.

(** The comparison of the elapsed seconds is a comparison of
    milliseconds. *)
Lemma reached_iff seconds now2 e :
  reached seconds now2 e = true ↔ 1000 * seconds ≤ now2 - startTime e.
Proof.
  unfold reached, elapsedTime. rewrite js_ge_true.
  unfold Qle, Qdiv, Qmult, Qinv, inject_Z. cbn. lia.
Qed.

Lemma reached_false seconds now2 e :
  reached seconds now2 e = false ↔ now2 - startTime e < 1000 * seconds.
Proof.
  rewrite <- not_true_iff_false, reached_iff. lia.
Qed.

Lemma reached_markOverLimit seconds now2 e :
  reached seconds now2 (markOverLimit e) = reached seconds now2 e.
Proof. reflexivity. Qed.

Lemma reached_mono s s' now2 e :
  s ≤ s' → reached s' now2 e = true → reached s now2 e = true.
Proof. rewrite !reached_iff. lia. Qed.

Lemma customKillThresholdSeconds_cases nest :
  customKillThresholdSeconds nest
  = if decide (nest = 1 ∨ nest = 6) then 18000 else KILL_THRESHOLD_SECONDS.
Proof.
  unfold customKillThresholdSeconds. cbv zeta.
  destruct (decide (nest = 1 ∨ nest = 6)) as [[->| ->]|Hn]; [done | done |].
  destruct (Z.eqb_spec nest 1); [tauto |].
  destruct (Z.eqb_spec nest 6); [tauto | done].
Qed.

Lemma report_before_kill nest :
  REPORT_THRESHOLD_SECONDS ≤ customKillThresholdSeconds nest.
Proof.
  rewrite customKillThresholdSeconds_cases.
  unfold REPORT_THRESHOLD_SECONDS, KILL_THRESHOLD_SECONDS.
  case_decide; lia.
Qed.

(** The evaluation of a breaching instance, in one piece. *)
Lemma body_breaching uuid limits nest resources now1 now2
    (tracker : gmap string OverLimitEntry) :
  overLimit limits resources = true →
  let e := markOverLimit (recordInEffect tracker uuid now1) in
  let notify :=
    reached REPORT_THRESHOLD_SECONDS now2 e && negb (reported e) in
  let kill := reached (customKillThresholdSeconds nest) now2 e in
  getServerResources_body uuid limits nest resources now1 now2 tracker
  = (if kill then delete uuid tracker
     else <[uuid := {| startTime := startTime e;
                       reported := reported e || notify;
                       isOverLimit := Some true |}]> tracker,
     (if notify then [ENotify uuid] else [])
     ++ (if kill then Terminate uuid else []),
     Normal tt).
Proof.
  intros Hover. cbv zeta.
  unfold getServerResources_body, recordInEffect, reached.
  rewrite Hover.
  destruct (tracker !! uuid) as [e0|] eqn:He.
  - rewrite He. cbn.
    destruct (js_ge _ (inject_Z REPORT_THRESHOLD_SECONDS)),
      (reported e0), (js_ge _ (inject_Z (customKillThresholdSeconds nest)));
      cbn; rewrite ?delete_insert_eq, ?insert_insert_eq; reflexivity.
  - rewrite lookup_insert_eq. cbn.
    destruct (js_ge _ (inject_Z REPORT_THRESHOLD_SECONDS)),
      (js_ge _ (inject_Z (customKillThresholdSeconds nest)));
      cbn; rewrite ?delete_insert_eq, ?insert_insert_eq; reflexivity.
Qed.

(** The evaluation of an instance within its limits. *)
Lemma body_within uuid limits nest resources now1 now2
    (tracker : gmap string OverLimitEntry) :
  overLimit limits resources = false →
  getServerResources_body uuid limits nest resources now1 now2 tracker
  = (delete uuid tracker, [], Normal tt).
Proof.
  intros Hover. unfold getServerResources_body. rewrite Hover.
  destruct (tracker !! uuid) eqn:He; [done |].
  by rewrite delete_id.
Qed.

End TrackerFacts.

(** ** Episodes *)

Module EpisodeFacts.
Import AbuseLog TrackerFacts.

Lemma notifyCount_app uuid events events' :
  notifyCount uuid (events ++ events')
  = (notifyCount uuid events + notifyCount uuid events')%nat.
Proof. induction events as [|e events IH]; cbn; [done |]. rewrite IH. lia. Qed.

Lemma notifyCount_Terminate uuid uuid' :
  notifyCount uuid (Terminate uuid') = 0%nat.
Proof. cbn. by rewrite !decide_False. Qed.

Lemma notifyCount_Notify_ne uuid uuid' (b : bool) :
  uuid' ≠ uuid →
  notifyCount uuid (if b then [ENotify uuid'] else []) = 0%nat.
Proof.
  intros Hne. destruct b; cbn; [| done].
  rewrite decide_False; [done | congruence].
Qed.

Lemma notifyCount_Notify uuid (b : bool) :
  notifyCount uuid (if b then [ENotify uuid] else [])
  = if b then 1%nat else 0%nat.
Proof. destruct b; cbn; [| done]. by rewrite decide_True. Qed.

Lemma notifyCount_kill uuid uuid' (b : bool) :
  notifyCount uuid (if b then Terminate uuid' else []) = 0%nat.
Proof. destruct b; [apply notifyCount_Terminate | done]. Qed.

(** The two shapes of an evaluation. *)
Lemma evaluate_cases ev (tracker : gmap string OverLimitEntry) :
  let e := markOverLimit (recordInEffect tracker (ev_uuid ev) (ev_now1 ev)) in
  let notify :=
    reached REPORT_THRESHOLD_SECONDS (ev_now2 ev) e && negb (reported e) in
  let kill := reached (customKillThresholdSeconds (ev_nest ev)) (ev_now2 ev) e in
  evaluate ev tracker
  = if overLimit (ev_limits ev) (ev_resources ev) then
      (if kill then delete (ev_uuid ev) tracker
       else <[ev_uuid ev := {| startTime := startTime e;
                               reported := reported e || notify;
                               isOverLimit := Some true |}]> tracker,
       (if notify then [ENotify (ev_uuid ev)] else [])
       ++ (if kill then Terminate (ev_uuid ev) else []),
       Normal tt)
    else (delete (ev_uuid ev) tracker, [], Normal tt).
Proof.
  cbv zeta. unfold evaluate.
  destruct (overLimit _ _) eqn:Hover.
  - by rewrite body_breaching.
  - by rewrite body_within.
Qed.

(** An evaluation of another instance leaves the record alone and emits
    no [Notify] for this one. *)
Lemma evaluate_other uuid ev (tracker : gmap string OverLimitEntry) :
  ev_uuid ev ≠ uuid →
  (evaluate ev tracker).1.1 !! uuid = tracker !! uuid
  ∧ notifyCount uuid (evaluate ev tracker).1.2 = 0%nat.
Proof.
  intros Hne. rewrite evaluate_cases. cbv zeta.
  destruct (overLimit _ _); cbn [fst snd].
  - split.
    + destruct (reached (customKillThresholdSeconds _) _ _).
      * by rewrite lookup_delete_ne.
      * by rewrite lookup_insert_ne.
    + by rewrite notifyCount_app, notifyCount_Notify_ne, notifyCount_kill.
  - split; [by rewrite lookup_delete_ne | done].
Qed.

(** One evaluation emits at most one [Notify], and a record that is left
    after a [Notify] is marked as reported. *)
Lemma evaluate_notify_once uuid ev (tracker : gmap string OverLimitEntry) :
  (notifyCount uuid (evaluate ev tracker).1.2 ≤ 1)%nat
  ∧ (notifyCount uuid (evaluate ev tracker).1.2 = 1%nat →
     ∀ e', (evaluate ev tracker).1.1 !! uuid = Some e' → reported e' = true).
Proof.
  destruct (decide (ev_uuid ev = uuid)) as [<-|Hne].
  - rewrite evaluate_cases. cbv zeta.
    destruct (overLimit _ _); cbn [fst snd]; [| split; [cbn; lia | done]].
    rewrite notifyCount_app, notifyCount_Notify, notifyCount_kill.
    destruct (_ && _) eqn:Hn; [| split; [lia | done]].
    split; [lia |]. intros _ e'.
    destruct (reached (customKillThresholdSeconds _) _ _).
    + by rewrite lookup_delete_eq.
    + rewrite lookup_insert_eq. intros [= <-]. cbn. apply orb_true_r.
  - destruct (evaluate_other uuid ev tracker Hne) as [_ ->].
    split; [lia | done].
Qed.

(** Once the record is marked as reported, an evaluation emits no
    [Notify] and leaves the mark. *)
Lemma evaluate_reported uuid ev (tracker : gmap string OverLimitEntry) e :
  tracker !! uuid = Some e → reported e = true →
  notifyCount uuid (evaluate ev tracker).1.2 = 0%nat
  ∧ ∀ e', (evaluate ev tracker).1.1 !! uuid = Some e' → reported e' = true.
Proof.
  intros He Hr. destruct (decide (ev_uuid ev = uuid)) as [<-|Hne].
  - rewrite evaluate_cases. cbv zeta. unfold recordInEffect. rewrite He.
    cbn [markOverLimit reported]. rewrite Hr, andb_false_r. cbn [orb].
    destruct (overLimit _ _); cbn [fst snd].
    + cbn [app]. rewrite notifyCount_kill. split; [done |]. intros e'.
      destruct (reached (customKillThresholdSeconds _) _ _).
      * by rewrite lookup_delete_eq.
      * rewrite lookup_insert_eq. by intros [= <-].
    + split; [done |]. intros e'. by rewrite lookup_delete_eq.
  - destruct (evaluate_other uuid ev tracker Hne) as [-> ->].
    split; [done |]. intros e'. rewrite He. by intros [= <-].
Qed.

Lemma run_reported uuid evs (tracker : gmap string OverLimitEntry) e :
  tracker !! uuid = Some e → reported e = true →
  sameEpisode uuid evs tracker →
  notifyCount uuid (run evs tracker).2 = 0%nat.
Proof.
  revert tracker e. induction evs as [|ev evs IH]; intros tracker e He Hr Hs.
  - done.
  - cbn [run snd]. rewrite notifyCount_app.
    destruct (evaluate_reported uuid ev tracker e He Hr) as [-> Hkeep].
    destruct evs as [|ev' evs]; [done |].
    destruct Hs as [[e' He'] Hs].
    by rewrite (IH _ e' He' (Hkeep e' He') Hs).
Qed.

Lemma run_notify_once uuid evs (tracker : gmap string OverLimitEntry) :
  sameEpisode uuid evs tracker →
  (notifyCount uuid (run evs tracker).2 ≤ 1)%nat.
Proof.
  revert tracker. induction evs as [|ev evs IH]; intros tracker Hs.
  - cbn. lia.
  - cbn [run snd]. rewrite notifyCount_app.
    destruct (evaluate_notify_once uuid ev tracker) as [Hle Hmark].
    destruct evs as [|ev' evs]; [cbn; lia |].
    destruct Hs as [[e' He'] Hs].
    destruct (decide (notifyCount uuid (evaluate ev tracker).1.2 = 1%nat))
      as [H1|H1].
    + rewrite (run_reported uuid _ _ e' He' (Hmark H1 e' He') Hs). lia.
    + specialize (IH _ Hs). lia.
Qed.

(** [Notify] is emitted exactly when the report threshold is reached and
    the record is not yet marked. *)
Lemma evaluate_notify_iff ev (tracker : gmap string OverLimitEntry) :
  overLimit (ev_limits ev) (ev_resources ev) = true →
  let e := recordInEffect tracker (ev_uuid ev) (ev_now1 ev) in
  notifyCount (ev_uuid ev) (evaluate ev tracker).1.2 = 1%nat
  ↔ 1000 * REPORT_THRESHOLD_SECONDS ≤ ev_now2 ev - startTime e
    ∧ reported e = false.
Proof.
  intros Hover. cbv zeta.
  rewrite evaluate_cases, Hover. cbv zeta. cbn [fst snd].
  rewrite notifyCount_app, notifyCount_Notify, notifyCount_kill.
  rewrite <- reached_iff, reached_markOverLimit.
  cbn [markOverLimit reported].
  destruct (reached REPORT_THRESHOLD_SECONDS _ _), (reported _); cbn;
    intuition (try discriminate; try lia).
Qed.

(** A first breach: the record is created with the clock reading of this
    evaluation, and nothing is emitted as long as the two readings of the
    clock are less than the report threshold apart. *)
Lemma evaluate_first_breach ev (tracker : gmap string OverLimitEntry) uuid :
  ev_uuid ev = uuid →
  overLimit (ev_limits ev) (ev_resources ev) = true →
  tracker !! uuid = None →
  ev_now2 ev - ev_now1 ev < 1000 * REPORT_THRESHOLD_SECONDS →
  (evaluate ev tracker).1.1 !! uuid
  = Some (markOverLimit (freshRecord (ev_now1 ev)))
  ∧ (evaluate ev tracker).1.2 = [].
Proof.
  intros <- Hover Hnone Hnow.
  rewrite evaluate_cases, Hover. cbv zeta. cbn [fst snd].
  unfold recordInEffect. rewrite Hnone.
  assert (Hr : reached REPORT_THRESHOLD_SECONDS (ev_now2 ev)
                 (markOverLimit (freshRecord (ev_now1 ev))) = false).
  { by apply reached_false. }
  assert (Hk : reached (customKillThresholdSeconds (ev_nest ev)) (ev_now2 ev)
                 (markOverLimit (freshRecord (ev_now1 ev))) = false).
  { apply not_true_iff_false. intros Hk.
    apply (reached_mono _ _ _ _ (report_before_kill (ev_nest ev))) in Hk.
    congruence. }
  rewrite Hr, Hk. cbn. by rewrite lookup_insert_eq.
Qed.

(** What an evaluation does depends on the record of its instance only. *)
Lemma evaluate_own_record ev (tracker tracker' : gmap string OverLimitEntry) :
  tracker !! ev_uuid ev = tracker' !! ev_uuid ev →
  (evaluate ev tracker).1.1 !! ev_uuid ev
  = (evaluate ev tracker').1.1 !! ev_uuid ev
  ∧ (evaluate ev tracker).1.2 = (evaluate ev tracker').1.2.
Proof.
  intros H. rewrite !evaluate_cases. cbv zeta. unfold recordInEffect.
  rewrite H. destruct (overLimit _ _); cbn [fst snd].
  - split; [| done].
    destruct (reached (customKillThresholdSeconds _) _ _).
    + by rewrite !lookup_delete_eq.
    + by rewrite !lookup_insert_eq.
  - by rewrite !lookup_delete_eq.
Qed.

(** Evaluations of two instances commute: the tasks of a batch, which
    interleave at their [await]s, can be taken one after the other. *)
Lemma evaluate_commute ev1 ev2 (tracker : gmap string OverLimitEntry) :
  ev_uuid ev1 ≠ ev_uuid ev2 →
  (evaluate ev2 (evaluate ev1 tracker).1.1).1.1
  = (evaluate ev1 (evaluate ev2 tracker).1.1).1.1
  ∧ (evaluate ev2 (evaluate ev1 tracker).1.1).1.2 = (evaluate ev2 tracker).1.2
  ∧ (evaluate ev1 (evaluate ev2 tracker).1.1).1.2 = (evaluate ev1 tracker).1.2.
Proof.
  intros Hne.
  pose proof (evaluate_other (ev_uuid ev2) ev1 tracker Hne) as [H12 _].
  pose proof (evaluate_other (ev_uuid ev1) ev2 tracker (not_eq_sym Hne))
    as [H21 _].
  destruct (evaluate_own_record ev2 _ _ H12) as [L2 E2].
  destruct (evaluate_own_record ev1 _ _ H21) as [L1 E1].
  split; [| by split].
  apply map_eq. intros k.
  destruct (decide (ev_uuid ev1 = k)) as [<-|N1].
  - rewrite (proj1 (evaluate_other (ev_uuid ev1) ev2 _ (not_eq_sym Hne))).
    by rewrite L1.
  - destruct (decide (ev_uuid ev2 = k)) as [<-|N2].
    + rewrite (proj1 (evaluate_other (ev_uuid ev2) ev1 _ Hne)). by rewrite L2.
    + rewrite (proj1 (evaluate_other k ev2 _ N2)),
        (proj1 (evaluate_other k ev1 _ N1)),
        (proj1 (evaluate_other k ev1 _ N1)),
        (proj1 (evaluate_other k ev2 _ N2)).
      done.
Qed.

End EpisodeFacts.

Module EpisodeRunFacts.
Import AbuseLog TrackerFacts EpisodeFacts.

Lemma reached_leb seconds now2 e :
  reached seconds now2 e = (1000 * seconds <=? now2 - startTime e).
Proof.
  apply eq_true_iff_eq. by rewrite reached_iff, Z.leb_le.
Qed.

Lemma run_app evs evs' (tracker : gmap string OverLimitEntry) :
  run (evs ++ evs') tracker
  = ((run evs' (run evs tracker).1).1,
     (run evs tracker).2 ++ (run evs' (run evs tracker).1).2).
Proof.
  revert tracker. induction evs as [|ev evs IH]; intros tracker.
  - cbn. by destruct (run evs' tracker).
  - cbn [app run fst snd]. rewrite IH. cbn [fst snd]. by rewrite app_assoc.
Qed.

(** An evaluation of a breaching instance before the kill threshold keeps
    the record, with its start time, and marks it when it reports. *)
Lemma evaluate_breach_goes_on ev (tracker : gmap string OverLimitEntry) e :
  tracker !! ev_uuid ev = Some e →
  overLimit (ev_limits ev) (ev_resources ev) = true →
  ev_now2 ev - startTime e < 1000 * customKillThresholdSeconds (ev_nest ev) →
  let notify :=
    (1000 * REPORT_THRESHOLD_SECONDS <=? ev_now2 ev - startTime e)
    && negb (reported e) in
  evaluate ev tracker
  = (<[ev_uuid ev := {| startTime := startTime e;
                        reported := reported e || notify;
                        isOverLimit := Some true |}]> tracker,
     if notify then [ENotify (ev_uuid ev)] else [],
     Normal tt).
Proof.
  intros He Hover Hk. cbv zeta.
  rewrite evaluate_cases, Hover. cbv zeta. unfold recordInEffect. rewrite He.
  apply reached_false in Hk.
  rewrite !reached_markOverLimit, Hk, reached_leb.
  cbn [markOverLimit startTime reported]. by rewrite app_nil_r.
Qed.

Lemma breachGoesOn_cons uuid start ev evs :
  breachGoesOn uuid start (ev :: evs) →
  (ev_uuid ev = uuid →
   overLimit (ev_limits ev) (ev_resources ev) = true
   ∧ ev_now2 ev - start < 1000 * customKillThresholdSeconds (ev_nest ev))
  ∧ breachGoesOn uuid start evs.
Proof.
  intros H. split.
  - apply H, list_elem_of_here.
  - intros ev' Hin. apply H. by apply list_elem_of_further.
Qed.

(** While the breach goes on the record stays, [Notify] is emitted exactly
    once if a report is due and the record is not marked, and never
    otherwise. *)
Lemma run_breach_goes_on uuid evs (tracker : gmap string OverLimitEntry) e :
  tracker !! uuid = Some e →
  breachGoesOn uuid (startTime e) evs →
  notifyCount uuid (run evs tracker).2
  = (if negb (reported e) && reportDue uuid (startTime e) evs
     then 1 else 0)%nat
  ∧ (∃ e', (run evs tracker).1 !! uuid = Some e'
           ∧ startTime e' = startTime e
           ∧ reported e' = reported e || reportDue uuid (startTime e) evs)
  ∧ sameEpisode uuid evs tracker.
Proof.
  revert tracker e. induction evs as [|ev evs IH]; intros tracker e He Hgo.
  - cbn [run fst snd reportDue existsb notifyCount sameEpisode].
    rewrite andb_false_r, orb_false_r.
    split; [done |]. split; [by exists e | done].
  - apply breachGoesOn_cons in Hgo as [Hev Hgo].
    cbn [run fst snd reportDue existsb]. rewrite notifyCount_app.
    destruct (decide (ev_uuid ev = uuid)) as [Hu|Hne].
    + destruct (Hev Hu) as [Hover Hk]. subst uuid.
      rewrite bool_decide_eq_true_2 by done. cbn [andb].
      rewrite (evaluate_breach_goes_on ev tracker e He Hover Hk).
      cbv zeta. cbn [fst snd].
      set (R := 1000 * REPORT_THRESHOLD_SECONDS <=? ev_now2 ev - startTime e).
      set (e1 := {| startTime := startTime e;
                    reported := reported e || R && negb (reported e);
                    isOverLimit := Some true |}).
      destruct (IH (<[ev_uuid ev := e1]> tracker) e1
                  (lookup_insert_eq _ _ _) Hgo)
        as (Hn & (e' & He' & Hs & Hr) & Hsame).
      fold (reportDue (ev_uuid ev) (startTime e) evs).
      cbn [startTime reported] in Hn, Hs, Hr.
      fold (reportDue (ev_uuid ev) (startTime e) evs) in Hn, Hr.
      rewrite notifyCount_Notify, Hn.
      split; [| split].
      * destruct (reported e), R, (reportDue _ _ evs); reflexivity.
      * exists e'. split; [done |]. split; [done |]. rewrite Hr.
        destruct (reported e), R, (reportDue _ _ evs); reflexivity.
      * destruct evs as [|ev' evs]; [done |]. cbn [sameEpisode].
        rewrite (evaluate_breach_goes_on ev tracker e He Hover Hk).
        cbv zeta. cbn [fst].
        split; [rewrite lookup_insert_eq; by eexists | exact Hsame].
    + rewrite bool_decide_eq_false_2 by done. cbn [andb orb].
      destruct (evaluate_other uuid ev tracker Hne) as [Hl Hn0].
      rewrite Hn0.
      assert (He1 : (evaluate ev tracker).1.1 !! uuid = Some e) by congruence.
      destruct (IH _ e He1 Hgo) as (Hn & Hrec & Hsame).
      fold (reportDue uuid (startTime e) evs).
      split; [exact Hn |]. split; [exact Hrec |].
      destruct evs as [|ev' evs]; [done |]. cbn [sameEpisode].
      split; [by eexists | exact Hsame].
Qed.


Lemma breachGoesOn_app uuid start evs evs' :
  breachGoesOn uuid start (evs ++ evs') →
  breachGoesOn uuid start evs ∧ breachGoesOn uuid start evs'.
Proof.
  intros H. split; intros ev Hin; apply H; rewrite elem_of_app; auto.
Qed.

(** The report is made by the first evaluation that is due. *)
Lemma run_first_due uuid before ev after
    (tracker : gmap string OverLimitEntry) e :
  tracker !! uuid = Some e → reported e = false →
  breachGoesOn uuid (startTime e) (before ++ ev :: after) →
  ev_uuid ev = uuid →
  reportDue uuid (startTime e) before = false →
  1000 * REPORT_THRESHOLD_SECONDS ≤ ev_now2 ev - startTime e →
  notifyCount uuid (run before tracker).2 = 0%nat
  ∧ (evaluate ev (run before tracker).1).1.2 = [ENotify uuid]
  ∧ notifyCount uuid
      (run after (evaluate ev (run before tracker).1).1.1).2 = 0%nat.
Proof.
  intros He Hr Hgo Hu Hnot Hdue.
  apply breachGoesOn_app in Hgo as [Hgo1 Hgo2].
  apply breachGoesOn_cons in Hgo2 as [Hev Hgo2].
  destruct (Hev Hu) as [Hover Hk].
  destruct (run_breach_goes_on uuid before tracker e He Hgo1)
    as (Hn1 & (e1 & He1 & Hs1 & Hr1) & _).
  rewrite Hr, Hnot in Hn1, Hr1. cbn in Hn1, Hr1.
  split; [exact Hn1 |]. subst uuid.
  rewrite <- Hs1 in Hk, Hdue, Hgo2.
  rewrite (evaluate_breach_goes_on ev _ e1 He1 Hover Hk). cbv zeta.
  rewrite Hr1, (proj2 (Z.leb_le _ _) Hdue). cbn [andb orb negb fst snd].
  split; [done |].
  destruct (run_breach_goes_on (ev_uuid ev) after
              (<[ev_uuid ev := {| startTime := startTime e1; reported := true;
                                  isOverLimit := Some true |}]>
                 (run before tracker).1)
              {| startTime := startTime e1; reported := true;
                 isOverLimit := Some true |}
              (lookup_insert_eq _ _ _) Hgo2) as (Hn2 & _).
  exact Hn2.
Qed.

(** An episode from its first evaluation on. *)
Lemma run_from_first_breach uuid ev0 evs
    (tracker : gmap string OverLimitEntry) :
  tracker !! uuid = None → ev_uuid ev0 = uuid →
  overLimit (ev_limits ev0) (ev_resources ev0) = true →
  ev_now2 ev0 - ev_now1 ev0 < 1000 * REPORT_THRESHOLD_SECONDS →
  breachGoesOn uuid (ev_now1 ev0) evs →
  notifyCount uuid (run (ev0 :: evs) tracker).2
  = (if reportDue uuid (ev_now1 ev0) evs then 1 else 0)%nat.
Proof.
  intros Hnone Hu Hover Hnow Hgo.
  destruct (evaluate_first_breach ev0 tracker uuid Hu Hover Hnone Hnow)
    as [Hrec Hev].
  cbn [run fst snd]. rewrite Hev. cbn [app].
  by destruct (run_breach_goes_on uuid evs _ _ Hrec Hgo) as (-> & _).
Qed.

(** A report before the kill threshold leaves the record, marked. *)
Lemma evaluate_notify_marks ev (tracker : gmap string OverLimitEntry) :
  overLimit (ev_limits ev) (ev_resources ev) = true →
  let e := recordInEffect tracker (ev_uuid ev) (ev_now1 ev) in
  notifyCount (ev_uuid ev) (evaluate ev tracker).1.2 = 1%nat →
  ev_now2 ev - startTime e < 1000 * customKillThresholdSeconds (ev_nest ev) →
  (evaluate ev tracker).1.1
  = <[ev_uuid ev := {| startTime := startTime e; reported := true;
                       isOverLimit := Some true |}]> tracker.
Proof.
  intros Hover. cbv zeta. intros Hn Hk.
  rewrite evaluate_cases, Hover in Hn |- *. cbv zeta in Hn |- *.
  cbn [fst snd] in Hn |- *.
  rewrite notifyCount_app, notifyCount_Notify, notifyCount_kill in Hn.
  apply reached_false in Hk.
  rewrite !reached_markOverLimit in Hn |- *. rewrite Hk.
  cbn [markOverLimit startTime reported] in Hn |- *.
  destruct (reached REPORT_THRESHOLD_SECONDS _ _ && negb (reported _));
    [| discriminate Hn].
  by rewrite orb_true_r.
Qed.

End EpisodeRunFacts.

(** C2.  [Notify] is emitted once for an episode.  An evaluation of a
    breaching instance emits it exactly when the elapsed time has reached
    [REPORT_THRESHOLD_SECONDS] and the record is not yet marked as reported,
    and then, unless the kill threshold is reached too, it leaves the record
    in the tracker with its start time and [reported = true].  While the
    breach goes on (every evaluation of the instance finds it over its
    limits, before the kill threshold) the record stays in the tracker, and
    the evaluations emit [Notify] exactly once if one of them is due and the
    record was not marked, at the first that is due, and never otherwise,
    whatever the evaluations of other instances in between.  The same bound
    holds for any evaluations between which the record is never deleted. *)
Theorem notify_once_per_episode (uuid : string) :
  (∀ ev (tracker : gmap string AbuseLog.OverLimitEntry),
     ev_uuid ev = uuid →
     AbuseLog.overLimit (ev_limits ev) (ev_resources ev) = true →
     let e := recordInEffect tracker uuid (ev_now1 ev) in
     let r := evaluate ev tracker in
     (notifyCount uuid r.1.2 = 1%nat ↔
      1000 * AbuseLog.REPORT_THRESHOLD_SECONDS ≤ ev_now2 ev - AbuseLog.startTime e
      ∧ AbuseLog.reported e = false)
     ∧ (notifyCount uuid r.1.2 ≤ 1)%nat
     ∧ (notifyCount uuid r.1.2 = 1%nat →
        ∀ e', r.1.1 !! uuid = Some e' → AbuseLog.reported e' = true)
     ∧ (notifyCount uuid r.1.2 = 1%nat →
        ev_now2 ev - AbuseLog.startTime e
        < 1000 * AbuseLog.customKillThresholdSeconds (ev_nest ev) →
        r.1.1 = <[uuid := {| AbuseLog.startTime := AbuseLog.startTime e;
                             AbuseLog.reported := true;
                             AbuseLog.isOverLimit := Some true |}]> tracker))
  ∧ (∀ evs (tracker : gmap string AbuseLog.OverLimitEntry),
       sameEpisode uuid evs tracker →
       (notifyCount uuid (run evs tracker).2 ≤ 1)%nat)
  ∧ (∀ evs (tracker : gmap string AbuseLog.OverLimitEntry) e,
       tracker !! uuid = Some e →
       breachGoesOn uuid (AbuseLog.startTime e) evs →
       notifyCount uuid (run evs tracker).2
       = (if negb (AbuseLog.reported e)
             && reportDue uuid (AbuseLog.startTime e) evs
          then 1 else 0)%nat
       ∧ (∃ e', (run evs tracker).1 !! uuid = Some e'
                ∧ AbuseLog.startTime e' = AbuseLog.startTime e
                ∧ AbuseLog.reported e'
                  = AbuseLog.reported e
                    || reportDue uuid (AbuseLog.startTime e) evs)
       ∧ sameEpisode uuid evs tracker)
  ∧ (∀ before ev after (tracker : gmap string AbuseLog.OverLimitEntry) e,
       tracker !! uuid = Some e → AbuseLog.reported e = false →
       breachGoesOn uuid (AbuseLog.startTime e) (before ++ ev :: after) →
       ev_uuid ev = uuid →
       reportDue uuid (AbuseLog.startTime e) before = false →
       1000 * AbuseLog.REPORT_THRESHOLD_SECONDS
       ≤ ev_now2 ev - AbuseLog.startTime e →
       notifyCount uuid (run before tracker).2 = 0%nat
       ∧ (evaluate ev (run before tracker).1).1.2 = [ENotify uuid]
       ∧ notifyCount uuid
           (run after (evaluate ev (run before tracker).1).1.1).2 = 0%nat)
  ∧ (∀ ev0 evs (tracker : gmap string AbuseLog.OverLimitEntry),
       tracker !! uuid = None → ev_uuid ev0 = uuid →
       AbuseLog.overLimit (ev_limits ev0) (ev_resources ev0) = true →
       ev_now2 ev0 - ev_now1 ev0
       < 1000 * AbuseLog.REPORT_THRESHOLD_SECONDS →
       breachGoesOn uuid (ev_now1 ev0) evs →
       notifyCount uuid (run (ev0 :: evs) tracker).2
       = (if reportDue uuid (ev_now1 ev0) evs then 1 else 0)%nat).
Proof.
  split; [| split; [| split; [| split]]].
  - intros ev tracker <- Hover. cbv zeta.
    split; [by apply EpisodeFacts.evaluate_notify_iff |].
    destruct (EpisodeFacts.evaluate_notify_once (ev_uuid ev) ev tracker)
      as [Hle Hmark].
    split; [exact Hle |]. split; [exact Hmark |].
    by apply EpisodeRunFacts.evaluate_notify_marks.
  - apply EpisodeFacts.run_notify_once.
  - apply EpisodeRunFacts.run_breach_goes_on.
  - apply EpisodeRunFacts.run_first_due.
  - apply EpisodeRunFacts.run_from_first_breach.
Qed.

(** A breach that starts at 0 and is evaluated again at 7200 s and at
    7300 s: one [Notify], made at 7200 s, after which the record is there
    and marked. *)
Lemma notify_once_per_episode_witness :
  notifyCount "b" (run sample_episode ∅).2 = 1%nat
  ∧ (evaluate (sample_eval "b" 5 over_resources 7200000)
       {["b" := markOverLimit (freshRecord 0)]}).1.1
    = {["b" := mkReported 0]}
  ∧ notifyCount "b"
      (run [sample_eval "b" 5 over_resources 7300000]
         {["b" := mkReported 0]}).2 = 0%nat.
Proof.
  destruct (notify_once_per_episode "b") as (H1 & _ & H3 & _ & H5).
  split; [| split].
  - rewrite (H5 (sample_eval "b" 5 over_resources 0)
               [sample_eval "b" 5 over_resources 7200000;
                sample_eval "b" 5 over_resources 7300000] ∅);
      [reflexivity | reflexivity | reflexivity | reflexivity | reflexivity |].
    intros ev Hin _.
    apply elem_of_cons in Hin as [->|Hin]; [by split |].
    apply list_elem_of_singleton in Hin as ->. by split.
  - destruct (H1 (sample_eval "b" 5 over_resources 7200000)
                {["b" := markOverLimit (freshRecord 0)]} eq_refl eq_refl)
      as (Hiff & _ & _ & Hmark).
    rewrite Hmark; [apply insert_singleton_eq | | reflexivity].
    apply Hiff. split; [vm_compute; discriminate | reflexivity].
  - destruct (H3 [sample_eval "b" 5 over_resources 7300000]
                {["b" := mkReported 0]} (mkReported 0)) as (Hn & _).
    + reflexivity.
    + intros ev Hin _. apply list_elem_of_singleton in Hin as ->. by split.
    + exact Hn.
Defined.

(** The events of the sample episode. *)
Example sample_episode_events :
  (run sample_episode ∅).2 = [ENotify "b"].
Proof. vm_compute. reflexivity. Qed.

(** C3.  An evaluation of a breaching instance whose elapsed time has
    reached the kill threshold of its nest emits [Terminate] (after a
    [Notify], if the record was not yet marked as reported) and deletes the
    record, whether it was marked or not.  The next evaluation that finds the
    instance breaching starts afresh: its record carries the clock reading of
    that evaluation and is not marked. *)
Theorem terminate_at_kill_threshold (ev : Evaluation)
    (tracker : gmap string AbuseLog.OverLimitEntry) :
  AbuseLog.overLimit (ev_limits ev) (ev_resources ev) = true →
  1000 * AbuseLog.customKillThresholdSeconds (ev_nest ev)
  ≤ ev_now2 ev
    - AbuseLog.startTime (recordInEffect tracker (ev_uuid ev) (ev_now1 ev)) →
  let e := recordInEffect tracker (ev_uuid ev) (ev_now1 ev) in
  let r := evaluate ev tracker in
  r.1.2 = (if AbuseLog.reported e then [] else [ENotify (ev_uuid ev)])
          ++ Terminate (ev_uuid ev)
  ∧ r.1.1 = delete (ev_uuid ev) tracker
  ∧ r.1.1 !! ev_uuid ev = None
  ∧ r.2 = Normal tt
  ∧ ∀ ev', ev_uuid ev' = ev_uuid ev →
      AbuseLog.overLimit (ev_limits ev') (ev_resources ev') = true →
      ev_now2 ev' - ev_now1 ev' < 1000 * AbuseLog.REPORT_THRESHOLD_SECONDS →
      (evaluate ev' r.1.1).1.1 !! ev_uuid ev
      = Some (markOverLimit (freshRecord (ev_now1 ev')))
      ∧ (evaluate ev' r.1.1).1.2 = [].
Proof.
  intros Hover Hkill. cbv zeta.
  rewrite EpisodeFacts.evaluate_cases, Hover. cbv zeta. cbn [fst snd].
  apply TrackerFacts.reached_iff in Hkill.
  rewrite !TrackerFacts.reached_markOverLimit, Hkill,
    (TrackerFacts.reached_mono _ _ _ _
       (TrackerFacts.report_before_kill (ev_nest ev)) Hkill).
  cbn [markOverLimit AbuseLog.reported andb].
  split; [by destruct (AbuseLog.reported _) |].
  split; [done |]. split; [apply lookup_delete_eq |]. split; [done |].
  intros ev' Hu Hover' Hnow.
  apply EpisodeFacts.evaluate_first_breach; [done | done | | done].
  apply lookup_delete_eq.
Qed.

(** A bot whose breach started at 0 and was reported: [Terminate] at
    10800 s; the breach found at 10860 s starts a record at 10860 s. *)
Lemma terminate_at_kill_threshold_witness :
  (evaluate (sample_eval "b" 5 over_resources 10800000)
     {["b" := mkReported 0]}).1.2 = Terminate "b"
  ∧ (evaluate (sample_eval "b" 5 over_resources 10860000)
       (evaluate (sample_eval "b" 5 over_resources 10800000)
          {["b" := mkReported 0]}).1.1).1.1 !! "b"
    = Some (markOverLimit (freshRecord 10860000)).
Proof.
  destruct (terminate_at_kill_threshold
              (sample_eval "b" 5 over_resources 10800000)
              {["b" := mkReported 0]})
    as (Hev & _ & _ & _ & Hnext).
  - reflexivity.
  - vm_compute. discriminate.
  - split; [exact Hev |].
    apply (Hnext (sample_eval "b" 5 over_resources 10860000));
      [reflexivity | reflexivity | reflexivity].
Defined.

(** C4.  An evaluation of an instance within its limits deletes its record
    and emits nothing; without a record it leaves the tracker as it is.
    Other records are untouched.  The next evaluation that finds the instance
    breaching creates a record that carries the clock reading of that
    evaluation, not an earlier one. *)
Theorem recovery_resets_timer (ev : Evaluation)
    (tracker : gmap string AbuseLog.OverLimitEntry) :
  AbuseLog.overLimit (ev_limits ev) (ev_resources ev) = false →
  let r := evaluate ev tracker in
  r = (delete (ev_uuid ev) tracker, [], Normal tt)
  ∧ r.1.1 !! ev_uuid ev = None
  ∧ (tracker !! ev_uuid ev = None → r.1.1 = tracker)
  ∧ (∀ uuid', uuid' ≠ ev_uuid ev → r.1.1 !! uuid' = tracker !! uuid')
  ∧ ∀ ev', ev_uuid ev' = ev_uuid ev →
      AbuseLog.overLimit (ev_limits ev') (ev_resources ev') = true →
      ev_now2 ev' - ev_now1 ev' < 1000 * AbuseLog.REPORT_THRESHOLD_SECONDS →
      (evaluate ev' r.1.1).1.1 !! ev_uuid ev
      = Some (markOverLimit (freshRecord (ev_now1 ev')))
      ∧ (evaluate ev' r.1.1).1.2 = [].
Proof.
  intros Hover. cbv zeta.
  rewrite EpisodeFacts.evaluate_cases, Hover. cbn [fst snd].
  split; [done |]. split; [apply lookup_delete_eq |].
  split; [apply delete_id |].
  split; [intros uuid' Hne; by apply lookup_delete_ne |].
  intros ev' Hu Hover' Hnow.
  apply EpisodeFacts.evaluate_first_breach; [done | done | | done].
  apply lookup_delete_eq.
Qed.

(** A breach at 0, a recovery at 100 s, a breach again at 200 s: the record
    starts at 200 s. *)
Lemma recovery_resets_timer_witness :
  (evaluate (sample_eval "b" 5 within_resources 100000)
     {["b" := markOverLimit (freshRecord 0)]}).1.1 = ∅
  ∧ (evaluate (sample_eval "b" 5 over_resources 200000)
       (evaluate (sample_eval "b" 5 within_resources 100000)
          {["b" := markOverLimit (freshRecord 0)]}).1.1).1.1 !! "b"
    = Some (markOverLimit (freshRecord 200000)).
Proof.
  destruct (recovery_resets_timer
              (sample_eval "b" 5 within_resources 100000)
              {["b" := markOverLimit (freshRecord 0)]} eq_refl)
    as (Hr & _ & _ & _ & Hnext).
  split.
  - rewrite Hr. cbn [fst]. apply delete_singleton_eq.
  - apply (Hnext (sample_eval "b" 5 over_resources 200000));
      [reflexivity | reflexivity | reflexivity].
Defined.

(** C6.  An evaluation of a breaching instance that has a record, with an
    elapsed time below the report threshold and below the kill threshold of
    its nest, emits nothing and keeps the record, with the same start time
    and the same mark; other records are untouched. *)
Theorem below_thresholds_no_action (ev : Evaluation)
    (tracker : gmap string AbuseLog.OverLimitEntry)
    (e : AbuseLog.OverLimitEntry) :
  AbuseLog.overLimit (ev_limits ev) (ev_resources ev) = true →
  tracker !! ev_uuid ev = Some e →
  ev_now2 ev - AbuseLog.startTime e
  < 1000 * AbuseLog.REPORT_THRESHOLD_SECONDS →
  ev_now2 ev - AbuseLog.startTime e
  < 1000 * AbuseLog.customKillThresholdSeconds (ev_nest ev) →
  let r := evaluate ev tracker in
  r.1.2 = []
  ∧ r.2 = Normal tt
  ∧ r.1.1 = <[ev_uuid ev := markOverLimit e]> tracker
  ∧ (∃ e', r.1.1 !! ev_uuid ev = Some e'
           ∧ AbuseLog.startTime e' = AbuseLog.startTime e
           ∧ AbuseLog.reported e' = AbuseLog.reported e)
  ∧ ∀ uuid', uuid' ≠ ev_uuid ev → r.1.1 !! uuid' = tracker !! uuid'.
Proof.
  intros Hover He Hreport Hkill. cbv zeta.
  rewrite EpisodeFacts.evaluate_cases, Hover. cbv zeta. cbn [fst snd].
  unfold recordInEffect. rewrite He.
  apply TrackerFacts.reached_false in Hreport, Hkill.
  rewrite !TrackerFacts.reached_markOverLimit, Hreport, Hkill.
  cbn [andb app markOverLimit AbuseLog.reported AbuseLog.startTime].
  rewrite orb_false_r.
  split; [done |]. split; [done |]. split; [done |].
  split.
  - eexists. by rewrite lookup_insert_eq.
  - intros uuid' Hne. by rewrite lookup_insert_ne.
Qed.

(** A breach that started at 0, evaluated after one hour. *)
Lemma below_thresholds_no_action_witness :
  (evaluate (sample_eval "b" 5 over_resources 3600000)
     {["b" := markOverLimit (freshRecord 0)]}).1.2 = []
  ∧ (evaluate (sample_eval "b" 5 over_resources 3600000)
       {["b" := markOverLimit (freshRecord 0)]}).1.1
    = {["b" := markOverLimit (freshRecord 0)]}.
Proof.
  destruct (below_thresholds_no_action
              (sample_eval "b" 5 over_resources 3600000)
              {["b" := markOverLimit (freshRecord 0)]}
              (markOverLimit (freshRecord 0)))
    as (Hev & _ & Htr & _).
  - reflexivity.
  - reflexivity.
  - reflexivity.
  - reflexivity.
  - split; [exact Hev |]. rewrite Htr. apply insert_singleton_eq.
Defined.

(** ** The poll cycle *)

Module CycleFacts.
Import AbuseLog.

(** The batches cover the listing, in order, and none is longer than
    [BATCH_SIZE]. *)
Lemma batches_concat servers i :
  concat (batches servers i) = drop i servers.
Proof.
  funelim (batches servers i).
  - cbn [concat]. rewrite H, <- drop_drop. apply take_drop.
  - rewrite drop_ge; [done | lia].
Qed.

Lemma batches_size servers i :
  Forall (λ batch, (length batch ≤ BATCH_SIZE)%nat) (batches servers i).
Proof.
  funelim (batches servers i); constructor; [| done].
  rewrite length_take. lia.
Qed.

Lemma getServerResources_body_normal uuid limits nest resources now1 now2
    (tracker : gmap string OverLimitEntry) :
  (getServerResources_body uuid limits nest resources now1 now2 tracker).2
  = Normal tt.
Proof.
  pose proof (EpisodeFacts.evaluate_cases
                (mkEvaluation uuid limits nest resources now1 now2) tracker)
    as H.
  unfold evaluate in H. cbn in H. rewrite H.
  by destruct (overLimit _ _).
Qed.

(** With the resources of the server at hand [getServerResources] is the
    evaluation; without them it leaves the tracker as it is.  It does not
    throw. *)
Lemma getServerResources_cases uuid limits name nest world now1 now2
    (tracker : gmap string OverLimitEntry) :
  let r := getServerResources uuid limits name nest world now1 now2 tracker in
  r.2 = Normal tt
  ∧ r.1.1 = match valueOf (fetchWithRetry "" world 0 RETRY_LIMIT).2 with
            | Some resources =>
              (evaluate (mkEvaluation uuid limits nest resources now1 now2)
                 tracker).1.1
            | None => tracker
            end.
Proof.
  cbv zeta. unfold getServerResources. cbv zeta.
  rewrite (AbuseLogDirectory.abuselog_fetchWithRetry_value_url ""
             (PANEL_URL +:+ "/api/client/servers/" +:+ uuid +:+ "/resources")).
  destruct (FetchWithRetryFacts.fetchWithRetry_never_throws
              (PANEL_URL +:+ "/api/client/servers/" +:+ uuid +:+ "/resources")
              world 0 RETRY_LIMIT) as [v Hv].
  rewrite Hv. destruct v as [resources|]; [| done].
  cbn [valueOf]. unfold evaluate. cbn [ev_uuid ev_limits ev_nest ev_resources ev_now1 ev_now2].
  pose proof (getServerResources_body_normal uuid limits nest resources
                now1 now2 tracker) as Hn.
  destruct (getServerResources_body _ _ _ _ _ _ _) as [[tr ev] c].
  by cbn in *.
Qed.

Lemma runBatch_normal w batch (tracker : gmap string OverLimitEntry) :
  (runBatch w batch tracker).2 = Normal tt.
Proof.
  revert tracker. induction batch as [|s batch IH]; intros tracker; [done |].
  cbn [runBatch].
  pose proof (getServerResources_cases (uuid s) (limits s) (name s) (nest s)
                (resourceWorld w (uuid s)) (clock w (uuid s)).1
                (clock w (uuid s)).2 tracker) as [Hn _].
  destruct (getServerResources _ _ _ _ _ _ _ _) as [[tr1 ev1] c1].
  specialize (IH tr1).
  destruct (runBatch w batch tr1) as [[tr2 ev2] c2]. cbn in *.
  by rewrite Hn.
Qed.

Lemma runBatch_app w batch batch' (tracker : gmap string OverLimitEntry) :
  (runBatch w (batch ++ batch') tracker).1.1
  = (runBatch w batch' (runBatch w batch tracker).1.1).1.1.
Proof.
  revert tracker. induction batch as [|s batch IH]; intros tracker; [done |].
  cbn [app runBatch].
  destruct (getServerResources _ _ _ _ _ _ _ _) as [[tr1 ev1] c1].
  specialize (IH tr1).
  destruct (runBatch w (batch ++ batch') tr1) as [[tr2 ev2] c2].
  destruct (runBatch w batch tr1) as [[tr3 ev3] c3]. by cbn in *.
Qed.

(** The batches run one after the other are the servers run one after
    the other. *)
Lemma runBatches_flat w bs (tracker : gmap string OverLimitEntry) :
  (runBatches w bs tracker).1.1 = (runBatch w (concat bs) tracker).1.1
  ∧ (runBatches w bs tracker).2 = Normal tt.
Proof.
  revert tracker. induction bs as [|batch bs IH]; intros tracker; [done |].
  cbn [runBatches concat]. rewrite runBatch_app.
  pose proof (runBatch_normal w batch tracker) as Hn.
  destruct (runBatch w batch tracker) as [[tr1 ev1] c1]. cbn in Hn.
  rewrite Hn. destruct (IH tr1) as [IH1 IH2].
  destruct (runBatches w bs tr1) as [[tr2 ev2] c2]. by cbn in *.
Qed.



(** A cycle evaluates the servers of the listing, all of them, one after
    the other, and does not throw. *)
Lemma pollCycle_cases w (tracker : gmap string OverLimitEntry) r :
  pollCycle w tracker = Some r →
  ∃ events servers,
    getAllServersFromAppAPI (pageWorlds w) = Some (events, Normal servers)
    ∧ r.1.1 = (runBatch w servers tracker).1.1
    ∧ r.2 = Normal tt.
Proof.
  unfold pollCycle. intros H.
  destruct (getAllServersFromAppAPI (pageWorlds w)) as [[events c]|] eqn:Hl;
    [| done].
  assert (∃ servers, c = Normal servers) as [servers ->].
  { unfold getAllServersFromAppAPI in Hl.
    destruct (AbuseLogDirectory.abuselog_loop_returns _ _ _ _ Hl)
      as (urls & pages & complete & Hc).
    destruct (AbuseLogDirectory.abuselog_loop_crawl _ _ _ _ _ [] Hc)
      as (events' & Heq & _).
    rewrite Heq in Hl. injection Hl as _ <-. eauto. }
  exists events, servers. split; [done |].
  destruct (runBatches_flat w (batches servers 0) tracker) as [Hf Hn].
  rewrite batches_concat, drop_0 in Hf.
  destruct (runBatches w (batches servers 0) tracker) as [[tr1 ev1] c1].
  cbn in Hf, Hn. subst c1. injection H as <-. by cbn.
Qed.

End CycleFacts.



(** The override and the directory: a game server (nest 1) is on the only
    page of the directory, over its limits, its breach 18000 s old.  An
    evaluation with its nest would terminate it, but the directory leaves
    it out and the cycle requests the page, evaluates nothing and sleeps. *)
Example special_nest_never_evaluated :
  (evaluate (sample_eval "a" 1 over_resources 18000000)
     {["a" := mkReported 0]}).1.2 = Terminate "a"
  ∧ AbuseLog.pollCycle game_cycle {["a" := mkReported 0]}
    = Some ({["a" := mkReported 0]},
            [EFetch "/api/application/servers?page=1"; EDelay 10000],
            Normal tt)
  ∧ ¬ ∃ s, s ∈ [sample_server "a" 1]
           ∧ ∃ events servers,
               AbuseLog.getAllServersFromAppAPI (AbuseLog.pageWorlds game_cycle)
               = Some (events, Normal servers)
               ∧ abuselog_entry s ∈ servers.
Proof.
  split; [by vm_compute |]. split; [by vm_compute |].
  intros (s & _ & events & servers & Hl & Hs).
  vm_compute in Hl. injection Hl as _ <-. by apply elem_of_nil in Hs.
Qed.

(** An episode ends with the termination: when the breach goes on (the
    kill did not bring the instance within its limits), the record created
    next is not marked, and [Notify] is emitted again 7200 s later. *)
Example notify_again_after_terminate :
  (run [sample_eval "b" 5 over_resources 0;
        sample_eval "b" 5 over_resources 7200000;
        sample_eval "b" 5 over_resources 10800000;
        sample_eval "b" 5 over_resources 10860000;
        sample_eval "b" 5 over_resources 18060000] ∅).2
  = [ENotify "b"; EKill "b"; ELogToDiscord "b"; ENotify "b"].
Proof. by vm_compute. Qed.

(** * Further properties *)

(** ** The breach predicate on bytes *)

Lemma overLimit_bytes_iff (l : Limits) (r : Resources) :
  AbuseLog.overLimit l r = true ↔ breach_bytes l r.
Proof.
  rewrite overLimit_breach_spec. unfold breach_spec, breach_bytes.
  by rewrite !gb_comparison.
Qed.

(** X1.  A memory or disk limit of [m] MB is met exactly when the usage is at
    least [m * 1048576] bytes: the conversion of both sides to GB compares
    the usage with the limit in binary megabytes. *)
Theorem overLimit_on_bytes (l : Limits) (r : Resources) :
  AbuseLog.overLimit l r = true ↔ breach_bytes l r.
Proof. apply overLimit_bytes_iff. Qed.

(** A limit of 2048 MB and a usage of 2147483648 bytes. *)
Lemma overLimit_on_bytes_witness :
  AbuseLog.overLimit (mkLimits 0 2048 0) (mkResources 0 2147483648 0) = true.
Proof.
  apply (proj2 (overLimit_on_bytes (mkLimits 0 2048 0)
                  (mkResources 0 2147483648 0))).
  right; left. split; [reflexivity | discriminate].
Defined.

(** X2.  More usage never ends a breach. *)
Theorem overLimit_monotone (l : Limits) (r r' : Resources) :
  uses_at_least r r' →
  AbuseLog.overLimit l r = true → AbuseLog.overLimit l r' = true.
Proof.
  intros (Hc & Hm & Hd). rewrite !overLimit_bytes_iff. unfold breach_bytes.
  intros [[H0 H]|[[H0 H]|[H0 H]]]; [left | right; left | right; right];
    (split; [exact H0 | eapply Qle_trans; eassumption]).
Qed.

Lemma overLimit_monotone_witness :
  AbuseLog.overLimit sample_limits (mkResources 150 2147483648 5) = true.
Proof.
  apply (overLimit_monotone sample_limits over_resources).
  - unfold uses_at_least. cbn. repeat split; discriminate.
  - reflexivity.
Defined.

Lemma js_ge_proper (a a' b : Q) : (a == a')%Q → js_ge a b = js_ge a' b.
Proof.
  intros Ha. apply eq_true_iff_eq. rewrite !js_ge_true. by rewrite Ha.
Qed.

(** X3.  The usage of a resource without a limit ([0], or a negative number) is
    not looked at: two snapshots that agree on the resources that have a
    limit are judged alike. *)
Theorem overLimit_ignores_unlimited (l : Limits) (r r' : Resources) :
  ((0 < cpu l)%Q → (cpu_absolute r == cpu_absolute r')%Q) →
  ((0 < memory l)%Q → (memory_bytes r == memory_bytes r')%Q) →
  ((0 < disk l)%Q → (disk_bytes r == disk_bytes r')%Q) →
  AbuseLog.overLimit l r = AbuseLog.overLimit l r'.
Proof.
  intros Hc Hm Hd. unfold AbuseLog.overLimit. cbv zeta.
  f_equal; [f_equal |].
  - destruct (js_gt (cpu l) 0) eqn:H; [| done]. cbn.
    apply js_ge_proper, Hc. by apply js_gt_true.
  - destruct (js_gt (memory l) 0) eqn:H; [| done]. cbn.
    apply js_ge_proper. rewrite Hm; [reflexivity | by apply js_gt_true].
  - destruct (js_gt (disk l) 0) eqn:H; [| done]. cbn.
    apply js_ge_proper. rewrite Hd; [reflexivity | by apply js_gt_true].
Qed.

(** Without a disk limit a full disk changes nothing. *)
Lemma overLimit_ignores_unlimited_witness :
  AbuseLog.overLimit (mkLimits 100 2048 (-1)) (mkResources 10 5 0)
  = AbuseLog.overLimit (mkLimits 100 2048 (-1)) (mkResources 10 5 99999999999).
Proof.
  apply overLimit_ignores_unlimited; cbn; [reflexivity | reflexivity |].
  intros H. discriminate H.
Defined.

(** ** fetchWithRetry of index.js *)

Module IndexFetchFacts.
Import Index.

Lemma index_fetchWithRetry_events {J} url
    (world : nat → completion (Response J)) k retries :
  fetchWithRetry url world k retries
  = (withDelay 2000 (AbuseLog.fetchWithRetry url world k retries).1,
     (AbuseLog.fetchWithRetry url world k retries).2).
Proof.
  funelim (fetchWithRetry url world k retries).
  - by erewrite FetchWithRetryFacts.fetchWithRetry_rejected.
  - erewrite FetchWithRetryFacts.fetchWithRetry_ok by eassumption.
    cbn. by destruct (json response).
  - destruct a as [Hst Hr].
    erewrite FetchWithRetryFacts.fetchWithRetry_retry by eassumption.
    cbn. by rewrite H.
  - by erewrite FetchWithRetryFacts.fetchWithRetry_give_up.
Qed.

Lemma fetchCount_withDelay ms events :
  fetchCount (withDelay ms events) = fetchCount events.
Proof.
  unfold withDelay. induction events as [|[] events IH]; cbn; by rewrite ?IH.
Qed.

Lemma delaysOf_withDelay ms events :
  delaysOf (withDelay ms events) = map (λ _, ms) (delaysOf events).
Proof.
  unfold withDelay. induction events as [|[] events IH]; cbn; by rewrite ?IH.
Qed.

End IndexFetchFacts.

(** X4.  The two scripts retry alike: on every world [fetchWithRetry] of
    index.js returns what the one of abuse log script.js returns and makes
    the same requests; only the sleep before a retry differs, 2000 ms
    instead of [DELAY_BETWEEN_CHECKS_MS]. *)
Theorem fetchWithRetry_variants_agree {J} (url : string)
    (world : nat → completion (Response J)) (k : nat) (retries : Z) :
  Index.fetchWithRetry url world k retries
  = (withDelay 2000 (AbuseLog.fetchWithRetry url world k retries).1,
     (AbuseLog.fetchWithRetry url world k retries).2).
Proof. apply IndexFetchFacts.index_fetchWithRetry_events. Qed.

(** X5.  [fetchWithRetry] of index.js makes at most [1 + retries] requests (4 as
    the script calls it), sleeps 2000 ms before each retry and never throws
    to its caller. *)
Theorem index_fetchWithRetry_bounded {J} (url : string)
    (world : nat → completion (Response J)) (k : nat) (retries : Z) :
  let r := Index.fetchWithRetry url world k retries in
  (fetchCount r.1 ≤ 1 + Z.to_nat retries)%nat
  ∧ (length (delaysOf r.1) ≤ Z.to_nat retries)%nat
  ∧ Forall (λ ms, ms = 2000) (delaysOf r.1)
  ∧ (∃ v, r.2 = Normal v)
  ∧ (fetchCount (Index.fetchWithRetry url world k Index.DEFAULT_RETRIES).1
     ≤ 4)%nat.
Proof.
  cbv zeta. rewrite !IndexFetchFacts.index_fetchWithRetry_events. cbn [fst snd].
  rewrite !IndexFetchFacts.fetchCount_withDelay,
    IndexFetchFacts.delaysOf_withDelay, length_map.
  split; [apply FetchWithRetryFacts.fetchWithRetry_fetchCount |].
  split; [apply FetchWithRetryFacts.fetchWithRetry_delayCount |].
  split.
  - apply Forall_forall. intros ms Hms.
    apply list_elem_of_fmap in Hms as (? & -> & _). done.
  - split; [apply FetchWithRetryFacts.fetchWithRetry_never_throws |].
    apply (FetchWithRetryFacts.fetchWithRetry_fetchCount url world k 3).
Qed.

(** ** The batches of a cycle *)

Module BatchFacts.
Import AbuseLog.

Lemma batches_lookup servers j n batch :
  batches servers j !! n = Some batch →
  batch = take BATCH_SIZE (drop (j + BATCH_SIZE * n) servers) ∧ batch ≠ [].
Proof.
  revert n. funelim (batches servers j); intros m Hm.
  - destruct m as [|m].
    + injection Hm as <-. rewrite Nat.mul_0_r, Nat.add_0_r. split; [done |].
      intros Hnil. apply (f_equal length) in Hnil.
      rewrite length_take, length_drop in Hnil. unfold BATCH_SIZE in Hnil.
      change (length (@nil ServerEntry)) with 0%nat in Hnil. lia.
    + cbn in Hm. destruct (H _ _ Hm) as [-> Hne]. split; [| done].
      do 2 f_equal. unfold BATCH_SIZE. lia.
  - done.
Qed.

Lemma batches_length servers j :
  length (batches servers j)
  = ((length servers - j + (BATCH_SIZE - 1)) / BATCH_SIZE)%nat.
Proof.
  funelim (batches servers j).
  - cbn [length]. rewrite H. unfold BATCH_SIZE.
    clear H Heq Heqcall.
    destruct (decide (length servers - i < 5)%nat).
    + replace (length servers - (i + 5))%nat with 0%nat by lia.
      change ((0 + (5 - 1)) `div` 5)%nat with 0%nat.
      apply Nat.div_unique with (length servers - i - 1)%nat; lia.
    + replace (length servers - i + (5 - 1))%nat
        with (length servers - (i + 5) + (5 - 1) + 1 * 5)%nat by lia.
      rewrite Nat.div_add by lia. lia.
  - unfold BATCH_SIZE. symmetry. apply Nat.div_small. lia.
Qed.

End BatchFacts.

(** X6.  The batches of a cycle cut the listing into consecutive slices of
    [BATCH_SIZE] servers, the last one possibly shorter: put end to end they
    give the listing back, none is empty, and there are
    [ceil (n / BATCH_SIZE)] of them for [n] servers. *)
Theorem batches_partition (servers : list AbuseLog.ServerEntry) :
  concat (AbuseLog.batches servers 0) = servers
  ∧ length (AbuseLog.batches servers 0)
    = ((length servers + (AbuseLog.BATCH_SIZE - 1)) / AbuseLog.BATCH_SIZE)%nat
  ∧ ∀ n batch, AbuseLog.batches servers 0 !! n = Some batch →
      batch = take AbuseLog.BATCH_SIZE (drop (AbuseLog.BATCH_SIZE * n) servers)
      ∧ batch ≠ []
      ∧ (length batch ≤ AbuseLog.BATCH_SIZE)%nat.
Proof.
  split; [by rewrite CycleFacts.batches_concat, drop_0 |].
  split; [by rewrite BatchFacts.batches_length, Nat.sub_0_r |].
  intros n batch Hn.
  destruct (BatchFacts.batches_lookup _ _ _ _ Hn) as [-> Hne].
  split; [done |]. split; [done |]. rewrite length_take. lia.
Qed.

(** Seven servers: two batches, of five and of two. *)
Lemma batches_partition_witness :
  length (AbuseLog.batches seven_servers 0) = 2%nat
  ∧ AbuseLog.batches seven_servers 0 !! 1%nat = Some (drop 5 seven_servers).
Proof.
  split.
  - rewrite (proj1 (proj2 (batches_partition seven_servers))). reflexivity.
  - destruct (proj2 (proj2 (batches_partition seven_servers))
                1%nat (drop 5 seven_servers) eq_refl) as (_ & _ & _).
    reflexivity.
Defined.

(** ** Escalation *)

Module EscalationFacts.
Import AbuseLog TrackerFacts EpisodeFacts.

Lemma killCount_app uuid events events' :
  killCount uuid (events ++ events')
  = (killCount uuid events + killCount uuid events')%nat.
Proof. induction events as [|e events IH]; cbn; [done |]. rewrite IH. lia. Qed.

Lemma killCount_Notify uuid uuid' (b : bool) :
  killCount uuid (if b then [ENotify uuid'] else []) = 0%nat.
Proof. destruct b; [| done]. cbn. by rewrite decide_False. Qed.

Lemma killCount_Terminate uuid (b : bool) :
  killCount uuid (if b then Terminate uuid else [])
  = if b then 1%nat else 0%nat.
Proof.
  destruct b; [| done]. cbn. rewrite decide_True by done.
  by rewrite decide_False.
Qed.

Lemma killCount_Terminate_ne uuid uuid' (b : bool) :
  uuid' ≠ uuid →
  killCount uuid (if b then Terminate uuid' else []) = 0%nat.
Proof.
  intros Hne. destruct b; [| done]. cbn.
  rewrite !decide_False; [done | done | congruence].
Qed.

Lemma marked_recordInEffect (tracker : gmap string OverLimitEntry) uuid now1 :
  reported (recordInEffect tracker uuid now1) = marked tracker uuid.
Proof. unfold recordInEffect, marked. by destruct (tracker !! uuid). Qed.

Lemma kill_threshold_min nest :
  KILL_THRESHOLD_SECONDS ≤ customKillThresholdSeconds nest.
Proof.
  rewrite customKillThresholdSeconds_cases. unfold KILL_THRESHOLD_SECONDS.
  case_decide; lia.
Qed.

(** The events of an evaluation name its own instance, and come from a
    breach that has lasted. *)
Lemma evaluate_events ev (tracker : gmap string OverLimitEntry) :
  let e := recordInEffect tracker (ev_uuid ev) (ev_now1 ev) in
  let notify :=
    overLimit (ev_limits ev) (ev_resources ev)
    && reached REPORT_THRESHOLD_SECONDS (ev_now2 ev) e && negb (reported e) in
  let kill :=
    overLimit (ev_limits ev) (ev_resources ev)
    && reached (customKillThresholdSeconds (ev_nest ev)) (ev_now2 ev) e in
  (evaluate ev tracker).1.2
  = (if notify then [ENotify (ev_uuid ev)] else [])
    ++ (if kill then Terminate (ev_uuid ev) else []).
Proof.
  cbv zeta. rewrite evaluate_cases. cbv zeta.
  rewrite !reached_markOverLimit. cbn [markOverLimit reported].
  by destruct (overLimit _ _).
Qed.

Lemma elem_of_escalation (a b : bool) uuid e :
  e ∈ (if a then [ENotify uuid] else []) ++ (if b then Terminate uuid else [])
  ↔ (a = true ∧ e = ENotify uuid)
    ∨ (b = true ∧ (e = EKill uuid ∨ e = ELogToDiscord uuid)).
Proof.
  rewrite elem_of_app. unfold Terminate.
  destruct a, b; rewrite ?elem_of_cons, ?elem_of_nil; intuition congruence.
Qed.

Lemma evaluate_marked ev (tracker : gmap string OverLimitEntry) :
  let e := recordInEffect tracker (ev_uuid ev) (ev_now1 ev) in
  marked (evaluate ev tracker).1.1 (ev_uuid ev)
  = overLimit (ev_limits ev) (ev_resources ev)
    && negb (reached (customKillThresholdSeconds (ev_nest ev)) (ev_now2 ev) e)
    && (reported e || reached REPORT_THRESHOLD_SECONDS (ev_now2 ev) e).
Proof.
  cbv zeta. rewrite evaluate_cases. cbv zeta.
  rewrite !reached_markOverLimit. cbn [markOverLimit reported].
  unfold marked.
  destruct (overLimit _ _); cbn [fst snd andb];
    [| by rewrite lookup_delete_eq].
  destruct (reached (customKillThresholdSeconds _) _ _); cbn [negb andb].
  - by rewrite lookup_delete_eq.
  - rewrite lookup_insert_eq. cbn.
    by destruct (reported _), (reached REPORT_THRESHOLD_SECONDS _ _).
Qed.

Lemma evaluate_kill_notify uuid ev (tracker : gmap string OverLimitEntry) :
  (killCount uuid (evaluate ev tracker).1.2
   + (if marked (evaluate ev tracker).1.1 uuid then 1 else 0)
   ≤ notifyCount uuid (evaluate ev tracker).1.2
     + (if marked tracker uuid then 1 else 0))%nat.
Proof.
  destruct (decide (ev_uuid ev = uuid)) as [<-|Hne].
  - rewrite evaluate_marked, evaluate_events. cbv zeta.
    rewrite killCount_app, notifyCount_app, killCount_Notify,
      killCount_Terminate, notifyCount_Notify, notifyCount_kill,
      marked_recordInEffect.
    pose proof (reached_mono _ _ (ev_now2 ev)
                  (recordInEffect tracker (ev_uuid ev) (ev_now1 ev))
                  (report_before_kill (ev_nest ev))) as Hmono.
    destruct (overLimit _ _), (reached (customKillThresholdSeconds _) _ _),
      (reached REPORT_THRESHOLD_SECONDS _ _), (marked tracker _);
      cbn in *; try lia; by specialize (Hmono eq_refl).
  - rewrite evaluate_events. cbv zeta.
    rewrite killCount_app, notifyCount_app, killCount_Notify,
      killCount_Terminate_ne, notifyCount_Notify_ne, notifyCount_kill by done.
    unfold marked. by rewrite (proj1 (evaluate_other uuid ev tracker Hne)).
Qed.

Lemma run_kill_notify uuid evs (tracker : gmap string OverLimitEntry) :
  (killCount uuid (run evs tracker).2
   + (if marked (run evs tracker).1 uuid then 1 else 0)
   ≤ notifyCount uuid (run evs tracker).2
     + (if marked tracker uuid then 1 else 0))%nat.
Proof.
  revert tracker. induction evs as [|ev evs IH]; intros tracker; [cbn; lia |].
  cbn [run fst snd]. rewrite killCount_app, notifyCount_app.
  pose proof (evaluate_kill_notify uuid ev tracker).
  specialize (IH (evaluate ev tracker).1.1). lia.
Qed.

Lemma evaluate_recordsFrom evs ev (tracker : gmap string OverLimitEntry) :
  recordsFrom evs tracker →
  recordsFrom (evs ++ [ev]) (evaluate ev tracker).1.1.
Proof.
  intros Hinv uuid e He.
  destruct (decide (ev_uuid ev = uuid)) as [<-|Hne].
  - rewrite evaluate_cases in He. cbv zeta in He.
    destruct (overLimit _ _) eqn:Hover; cbn [fst snd] in He;
      [| by rewrite lookup_delete_eq in He].
    destruct (reached (customKillThresholdSeconds _) _ _);
      [by rewrite lookup_delete_eq in He |].
    rewrite lookup_insert_eq in He. injection He as <-. split; [done |].
    cbn [startTime markOverLimit]. unfold recordInEffect.
    destruct (tracker !! ev_uuid ev) as [e0|] eqn:H0.
    + destruct (Hinv _ _ H0) as [_ (ev0 & Hin & Hu & Ho & Hs)].
      exists ev0. rewrite elem_of_app. auto.
    + exists ev. rewrite elem_of_app, list_elem_of_singleton. auto.
  - rewrite (proj1 (evaluate_other uuid ev tracker Hne)) in He.
    destruct (Hinv _ _ He) as [Hi (ev0 & Hin & Hu & Ho & Hs)].
    split; [done |]. exists ev0. rewrite elem_of_app. auto.
Qed.

Lemma run_recordsFrom evs0 evs (tracker : gmap string OverLimitEntry) :
  recordsFrom evs0 tracker → recordsFrom (evs0 ++ evs) (run evs tracker).1.
Proof.
  revert evs0 tracker. induction evs as [|ev evs IH]; intros evs0 tracker Hinv.
  - by rewrite app_nil_r.
  - cbn [run fst]. replace (evs0 ++ ev :: evs) with ((evs0 ++ [ev]) ++ evs)
      by (by rewrite <- app_assoc).
    apply IH. by apply evaluate_recordsFrom.
Qed.

End EscalationFacts.

(** X7.  An evaluation escalates for its own instance only, and only for a
    breach that has lasted: a [Notify] means that the instance is over its
    limits, that its record is at least [REPORT_THRESHOLD_SECONDS] old and
    was not marked; a kill means that the instance is over its limits and
    its record at least [KILL_THRESHOLD_SECONDS] old; and the audit message
    goes with the kill and with nothing else. *)
Theorem escalation_only_after_sustained_breach (ev : Evaluation)
    (tracker : gmap string AbuseLog.OverLimitEntry) (uuid : string) :
  let e := recordInEffect tracker (ev_uuid ev) (ev_now1 ev) in
  let events := (evaluate ev tracker).1.2 in
  (ENotify uuid ∈ events →
   uuid = ev_uuid ev
   ∧ AbuseLog.overLimit (ev_limits ev) (ev_resources ev) = true
   ∧ 1000 * AbuseLog.REPORT_THRESHOLD_SECONDS
     ≤ ev_now2 ev - AbuseLog.startTime e
   ∧ AbuseLog.reported e = false)
  ∧ (EKill uuid ∈ events →
     uuid = ev_uuid ev
     ∧ AbuseLog.overLimit (ev_limits ev) (ev_resources ev) = true
     ∧ 1000 * AbuseLog.KILL_THRESHOLD_SECONDS
       ≤ ev_now2 ev - AbuseLog.startTime e)
  ∧ (ELogToDiscord uuid ∈ events ↔ EKill uuid ∈ events).
Proof.
  cbv zeta. rewrite EscalationFacts.evaluate_events. cbv zeta.
  rewrite !EscalationFacts.elem_of_escalation, !andb_true_iff, negb_true_iff,
    !TrackerFacts.reached_iff.
  pose proof (EscalationFacts.kill_threshold_min (ev_nest ev)) as Hmin.
  split; [| split; [| split]].
  - intros [[[[Hover Hr] Hm] [= ->]]|[_ [[=]|[=]]]]. done.
  - intros [[_ [=]]|[[Hover Hk] [[= ->]|[=]]]].
    split; [done |]. split; [done | lia].
  - intros [[_ [=]]|[Hk [[=]|[= ->]]]]. right. split; [done | by left].
  - intros [[_ [=]]|[Hk [[= ->]|[=]]]]. right. split; [done | by right].
Qed.

(** At 18000 s the bot is killed: it was over its limits for more than
    10800 s. *)
Lemma escalation_only_after_sustained_breach_witness :
  AbuseLog.overLimit sample_limits over_resources = true
  ∧ 1000 * AbuseLog.KILL_THRESHOLD_SECONDS ≤ 18000000 - 0.
Proof.
  destruct (proj1 (proj2 (escalation_only_after_sustained_breach
                            (sample_eval "b" 5 over_resources 18000000)
                            {["b" := mkReported 0]} "b")))
    as (_ & Hover & Hold).
  - vm_compute. apply list_elem_of_here.
  - split; [exact Hover | exact Hold].
Defined.

(** X8.  No kill without a report: over any sequence of evaluations started on
    a tracker in which the instance is not marked as reported, the kill
    signal has been sent to it at most as many times as it has been
    reported. *)
Theorem no_kill_without_notify (uuid : string) (evs : list Evaluation)
    (tracker : gmap string AbuseLog.OverLimitEntry) :
  marked tracker uuid = false →
  (killCount uuid (run evs tracker).2
   ≤ notifyCount uuid (run evs tracker).2)%nat.
Proof.
  intros Hm. pose proof (EscalationFacts.run_kill_notify uuid evs tracker) as H.
  rewrite Hm in H. lia.
Qed.

Lemma no_kill_without_notify_witness :
  (killCount "b" (run long_breach ∅).2
   ≤ notifyCount "b" (run long_breach ∅).2)%nat.
Proof. apply no_kill_without_notify. reflexivity. Defined.

(** X9.  The records that a sequence of evaluations leaves behind, started on
    an empty tracker: each belongs to an instance that one of the
    evaluations found over its limits, carries the first clock reading of
    such an evaluation as its start time, and has [isOverLimit] set. *)
Theorem run_records (evs : list Evaluation) :
  recordsFrom evs (run evs ∅).1.
Proof.
  apply (EscalationFacts.run_recordsFrom [] evs ∅).
  intros uuid e He. by rewrite lookup_empty in He.
Qed.

(** The record that the long breach leaves is the one of its second
    episode. *)
Lemma run_records_witness :
  AbuseLog.isOverLimit (mkReported 10860000) = Some true
  ∧ ∃ ev, ev ∈ long_breach ∧ ev_uuid ev = "b"
          ∧ AbuseLog.overLimit (ev_limits ev) (ev_resources ev) = true
          ∧ AbuseLog.startTime (mkReported 10860000) = ev_now1 ev.
Proof.
  apply (run_records long_breach "b" (mkReported 10860000)).
  by vm_compute.
Defined.

(** ** Requests, tasks and cycles *)

Module RequestFacts.
Import AbuseLog.

Lemma requestsOnly_app events events' :
  requestsOnly (events ++ events') ↔ requestsOnly events ∧ requestsOnly events'.
Proof. apply Forall_app. Qed.

Lemma requestsOnly_counts uuid events :
  requestsOnly events →
  notifyCount uuid events = 0%nat ∧ killCount uuid events = 0%nat.
Proof.
  induction 1 as [|e events He _ [IH1 IH2]]; [done |].
  cbn. rewrite IH1, IH2. by destruct e; rewrite ?decide_False.
Qed.

Lemma fetchWithRetry_requestsOnly {J} url
    (world : nat → completion (Response J)) k retries :
  requestsOnly (fetchWithRetry url world k retries).1.
Proof.
  unfold requestsOnly.
  funelim (fetchWithRetry url world k retries); cbn; repeat constructor; auto.
Qed.

Lemma delaysOf_app events events' :
  delaysOf (events ++ events') = delaysOf events ++ delaysOf events'.
Proof. induction events as [|[] events IH]; cbn; by rewrite ?IH. Qed.

Lemma fetchCount_app events events' :
  fetchCount (events ++ events')
  = (fetchCount events + fetchCount events')%nat.
Proof. induction events as [|[] events IH]; cbn; by rewrite ?IH. Qed.

Lemma fetched_value {J} url (w : nat → completion (Response J)) :
  (fetchWithRetry url w 0 RETRY_LIMIT).2 = Normal (fetched w).
Proof.
  unfold fetched.
  rewrite (AbuseLogDirectory.abuselog_fetchWithRetry_value_url "" url).
  destruct (FetchWithRetryFacts.fetchWithRetry_never_throws url w 0 RETRY_LIMIT)
    as [v Hv].
  by rewrite Hv.
Qed.

(** The events of an evaluation hold no request and no sleep. *)
Lemma evaluate_no_requests ev (tracker : gmap string OverLimitEntry) :
  fetchCount (evaluate ev tracker).1.2 = 0%nat
  ∧ delaysOf (evaluate ev tracker).1.2 = [].
Proof.
  rewrite EscalationFacts.evaluate_events. cbv zeta.
  by destruct (_ && _), (_ && _).
Qed.

(** [getServerResources]: the request, then the evaluation of what it
    returned, if anything. *)
Lemma getServerResources_split uuid limits name nest world now1 now2
    (tracker : gmap string OverLimitEntry) :
  let f := fetchWithRetry (PANEL_URL +:+ "/api/client/servers/" +:+ uuid
                           +:+ "/resources") world 0 RETRY_LIMIT in
  getServerResources uuid limits name nest world now1 now2 tracker
  = match fetched world with
    | None => (tracker, f.1, Normal tt)
    | Some resources =>
      let e := evaluate (mkEvaluation uuid limits nest resources now1 now2)
                 tracker in
      (e.1.1, f.1 ++ e.1.2, Normal tt)
    end.
Proof.
  cbv zeta. unfold getServerResources. cbv zeta. rewrite fetched_value.
  destruct (fetched world) as [resources|]; [| done].
  unfold evaluate. cbn [ev_uuid ev_limits ev_nest ev_resources ev_now1 ev_now2].
  pose proof (CycleFacts.getServerResources_body_normal uuid limits nest
                resources now1 now2 tracker) as Hn.
  destruct (getServerResources_body _ _ _ _ _ _ _) as [[tr ev] c].
  cbn in Hn. by subst c.
Qed.

(** A task leaves the records of the other servers alone, and sleeps only
    before a retry. *)
Lemma getServerResources_frame uuid limits name nest world now1 now2
    (tracker : gmap string OverLimitEntry) uuid' :
  uuid ≠ uuid' →
  (getServerResources uuid limits name nest world now1 now2 tracker).1.1
    !! uuid' = tracker !! uuid'.
Proof.
  intros Hne. rewrite getServerResources_split. cbv zeta.
  destruct (fetched world) as [resources|]; [| done]. cbn [fst].
  by apply (EpisodeFacts.evaluate_other uuid'
              (mkEvaluation uuid limits nest resources now1 now2) tracker).
Qed.

Lemma getServerResources_delays uuid limits name nest world now1 now2
    (tracker : gmap string OverLimitEntry) :
  Forall (λ ms, ms = DELAY_BETWEEN_CHECKS_MS)
    (delaysOf
       (getServerResources uuid limits name nest world now1 now2 tracker).1.2).
Proof.
  rewrite getServerResources_split. cbv zeta.
  destruct (fetched world) as [resources|]; cbn [fst snd].
  - rewrite delaysOf_app, (proj2 (evaluate_no_requests _ _)), app_nil_r.
    apply FetchWithRetryFacts.fetchWithRetry_delays.
  - apply FetchWithRetryFacts.fetchWithRetry_delays.
Qed.

Lemma runBatch_frame w batch (tracker : gmap string OverLimitEntry) uuid' :
  uuid' ∉ map uuid batch →
  (runBatch w batch tracker).1.1 !! uuid' = tracker !! uuid'.
Proof.
  revert tracker. induction batch as [|s batch IH]; intros tracker Hnot;
    [done |].
  cbn [runBatch].
  pose proof (getServerResources_frame (uuid s) (limits s) (name s) (nest s)
                (resourceWorld w (uuid s)) (clock w (uuid s)).1
                (clock w (uuid s)).2 tracker uuid') as Hf.
  destruct (getServerResources _ _ _ _ _ _ _ _) as [[tr1 ev1] c1].
  specialize (IH tr1).
  destruct (runBatch w batch tr1) as [[tr2 ev2] c2]. cbn [fst snd] in *.
  cbn [map] in Hnot. apply not_elem_of_cons in Hnot as [Hne Hnot].
  rewrite IH, Hf; [done | congruence | done].
Qed.

Lemma runBatch_delays w batch (tracker : gmap string OverLimitEntry) :
  Forall (λ ms, ms = DELAY_BETWEEN_CHECKS_MS)
    (delaysOf (runBatch w batch tracker).1.2).
Proof.
  revert tracker. induction batch as [|s batch IH]; intros tracker;
    [by constructor |].
  cbn [runBatch].
  pose proof (getServerResources_delays (uuid s) (limits s) (name s) (nest s)
                (resourceWorld w (uuid s)) (clock w (uuid s)).1
                (clock w (uuid s)).2 tracker) as Hd.
  destruct (getServerResources _ _ _ _ _ _ _ _) as [[tr1 ev1] c1].
  specialize (IH tr1).
  destruct (runBatch w batch tr1) as [[tr2 ev2] c2]. cbn in *.
  rewrite delaysOf_app. by apply Forall_app.
Qed.

Lemma pausesOf_app events events' :
  pausesOf (events ++ events') = (pausesOf events + pausesOf events')%nat.
Proof. unfold pausesOf. by rewrite delaysOf_app, filter_app, length_app. Qed.

Lemma pausesOf_retries events :
  Forall (λ ms, ms = DELAY_BETWEEN_CHECKS_MS) (delaysOf events) →
  pausesOf events = 0%nat.
Proof.
  unfold pausesOf. induction 1 as [|ms l Hms _ IH]; [done |].
  rewrite filter_cons, decide_False; [done |]. by rewrite Hms.
Qed.

Lemma runBatches_pauses w bs (tracker : gmap string OverLimitEntry) :
  pausesOf (runBatches w bs tracker).1.2 = length bs.
Proof.
  revert tracker. induction bs as [|batch bs IH]; intros tracker; [done |].
  cbn [runBatches].
  pose proof (CycleFacts.runBatch_normal w batch tracker) as Hn.
  pose proof (runBatch_delays w batch tracker) as Hd.
  destruct (runBatch w batch tracker) as [[tr1 ev1] c1]. cbn in Hn, Hd.
  subst c1. specialize (IH tr1).
  destruct (runBatches w bs tr1) as [[tr2 ev2] c2]. cbn [fst snd length] in *.
  rewrite pausesOf_app, (pausesOf_retries _ Hd).
  change (EDelay DELAY_BETWEEN_BATCHES_MS :: ev2)
    with ([EDelay DELAY_BETWEEN_BATCHES_MS] ++ ev2).
  rewrite pausesOf_app, IH. done.
Qed.

(** The requests of the directory: at most four for each page. *)
Lemma loop_requests worlds next acc r :
  getAllServers_loop worlds next acc = Some r →
  requestsOnly r.1
  ∧ (fetchCount r.1 ≤ 4 * length worlds)%nat
  ∧ Forall (λ ms, ms = DELAY_BETWEEN_CHECKS_MS) (delaysOf r.1).
Proof.
  revert next acc r. induction worlds as [|w worlds IH]; intros next acc r H.
  - destruct (or_null next) as [url|] eqn:Hn.
    + cbn in H. by rewrite Hn in H.
    + rewrite (AbuseLogDirectory.abuselog_loop_done _ _ _ Hn) in H.
      injection H as <-. repeat split; by constructor.
  - destruct (or_null next) as [url|] eqn:Hn.
    + rewrite (AbuseLogDirectory.abuselog_loop_request _ _ _ _ _ Hn) in H.
      cbv zeta in H.
      pose proof (fetchWithRetry_requestsOnly url w 0 RETRY_LIMIT) as Hr.
      pose proof (FetchWithRetryFacts.fetchWithRetry_fetchCount url w 0
                    RETRY_LIMIT) as Hc.
      pose proof (FetchWithRetryFacts.fetchWithRetry_delays url w 0
                    RETRY_LIMIT) as Hd.
      change (Z.to_nat RETRY_LIMIT) with 3%nat in Hc. cbn [length].
      destruct (abuselog_fetched w) as [data|].
      * destruct (getAllServers_loop worlds (links_next data) _) as [r'|]
          eqn:Hr'; [| done].
        injection H as <-. cbn [fst].
        destruct (IH _ _ _ Hr') as (IH1 & IH2 & IH3).
        rewrite requestsOnly_app, fetchCount_app, delaysOf_app.
        repeat split; [done | done | lia | by apply Forall_app].
      * injection H as <-. cbn [fst]. repeat split; [done | lia | done].
    + rewrite (AbuseLogDirectory.abuselog_loop_done _ _ _ Hn) in H.
      injection H as <-. repeat split; [by constructor | cbn; lia | by constructor].
Qed.

End RequestFacts.

(** ** The escalation actions *)

Module ActionFacts.
Import AbuseLog.

Lemma notifyServerOverLimit_swallows uuid webhook :
  notifyServerOverLimit uuid webhook = ([ENotify uuid], Normal tt).
Proof. by destruct webhook. Qed.

Lemma killServer_swallows uuid power :
  killServer uuid power = ([EKill uuid], Normal tt).
Proof. by destruct power. Qed.

Lemma logToDiscord_swallows uuid webhook :
  logToDiscord uuid webhook = ([ELogToDiscord uuid], Normal tt).
Proof. by destruct webhook. Qed.

Lemma actions_body uuid limits nest resources now1 now2 sinks
    (tracker : gmap string OverLimitEntry) :
  getServerResources_actions uuid limits nest resources now1 now2 sinks tracker
  = getServerResources_body uuid limits nest resources now1 now2 tracker.
Proof.
  unfold getServerResources_actions, getServerResources_body.
  rewrite notifyServerOverLimit_swallows, killServer_swallows,
    logToDiscord_swallows.
  destruct (overLimit limits resources); [| done].
  destruct (tracker !! uuid) as [e0|] eqn:He.
  - rewrite He. cbn. rewrite lookup_insert_eq. cbn.
    destruct (js_ge _ (inject_Z REPORT_THRESHOLD_SECONDS)), (reported e0),
      (js_ge _ (inject_Z (customKillThresholdSeconds nest))); reflexivity.
  - rewrite lookup_insert_eq. cbn. rewrite lookup_insert_eq. cbn.
    destruct (js_ge _ (inject_Z REPORT_THRESHOLD_SECONDS)),
      (js_ge _ (inject_Z (customKillThresholdSeconds nest))); reflexivity.
Qed.

End ActionFacts.

(** ** The task of index.js *)

Module IndexTaskFacts.
Import Index.

Lemma index_resources_fetched {J} url (w : nat → completion (Response J)) :
  (fetchWithRetry url w 0 DEFAULT_RETRIES).2 = Normal (fetched w).
Proof.
  unfold fetched. rewrite (IndexDirectory.index_fetchWithRetry_value url "").
  destruct (FetchWithRetryFacts.fetchWithRetry_never_throws "" w 0
              AbuseLog.RETRY_LIMIT) as [v Hv].
  unfold DEFAULT_RETRIES, AbuseLog.RETRY_LIMIT in *. by rewrite Hv.
Qed.

(** [getServerResources] of index.js, by cases on what the request
    returned. *)
Lemma index_getServerResources_cases server world webhook
    (tracker : gmap string OverLimitEntry) :
  let f := fetchWithRetry (PANEL_URL +:+ "/api/client/servers/" +:+ uuid server
                           +:+ "/resources") world 0 DEFAULT_RETRIES in
  getServerResources server world webhook tracker
  = match fetched world with
    | None => (tracker, f.1, Normal tt)
    | Some resources =>
      if overLimit (limits server) resources then
        if index_marked tracker (uuid server) then (tracker, f.1, Normal tt)
        else match webhook with
             | Normal _ =>
               (<[uuid server := {| reported := true |}]> tracker,
                f.1 ++ [ENotify (uuid server)], Normal tt)
             | Throw msg =>
               (tracker, f.1 ++ [ENotify (uuid server)], Throw msg)
             end
      else (delete (uuid server) tracker, f.1, Normal tt)
    end.
Proof.
  cbv zeta. unfold getServerResources. cbv zeta.
  rewrite index_resources_fetched.
  destruct (fetched world) as [resources|]; [| done].
  destruct (overLimit _ _).
  - unfold index_marked.
    destruct (match tracker !! uuid server with Some e => reported e | None => false end);
      [done |].
    cbn. by destruct webhook.
  - destruct (tracker !! uuid server) eqn:He; [done |]. by rewrite delete_id.
Qed.

Lemma requestsOnly_withDelay ms events :
  requestsOnly events → requestsOnly (withDelay ms events).
Proof.
  unfold requestsOnly, withDelay. intros H. apply Forall_fmap.
  eapply Forall_impl; [exact H |]. by intros [].
Qed.

Lemma index_fetchWithRetry_requestsOnly {J} url
    (world : nat → completion (Response J)) k retries :
  requestsOnly (fetchWithRetry url world k retries).1.
Proof.
  rewrite IndexFetchFacts.index_fetchWithRetry_events. cbn [fst].
  apply requestsOnly_withDelay, RequestFacts.fetchWithRetry_requestsOnly.
Qed.

End IndexTaskFacts.

(** X10.  A failure to deliver changes nothing in abuse log script.js: whatever
    the webhook and the power endpoint answer, and also when the requests to
    them are rejected, an evaluation ends normally, with the tracker and the
    events it has when everything is delivered. *)
Theorem escalation_failures_swallowed (uuid : string) (limits : Limits)
    (nest : Z) (resources : Resources) (now1 now2 : Z)
    (sinks : AbuseLog.Sinks)
    (tracker : gmap string AbuseLog.OverLimitEntry) :
  AbuseLog.getServerResources_actions uuid limits nest resources now1 now2
    sinks tracker
  = AbuseLog.getServerResources_body uuid limits nest resources now1 now2
      tracker
  ∧ (AbuseLog.getServerResources_actions uuid limits nest resources now1 now2
       sinks tracker).2 = Normal tt.
Proof.
  rewrite ActionFacts.actions_body. split; [done |].
  apply CycleFacts.getServerResources_body_normal.
Qed.

(** X11.  index.js reports a breach when it first sees it and not again while it
    lasts: the first evaluation that finds the server over its limits posts
    the report and, once it is delivered, records it; the next evaluation
    that finds it over its limits posts nothing and leaves the tracker as it
    is. *)
Theorem index_reports_first_breach_only (server : Index.ServerEntry)
    (world world' : nat → completion (Response Resources))
    (webhook webhook' : completion (Response unit))
    (resources resources' : Resources)
    (tracker : gmap string Index.OverLimitEntry) :
  fetched world = Some resources →
  Index.overLimit (Index.limits server) resources = true →
  fetched world' = Some resources' →
  Index.overLimit (Index.limits server) resources' = true →
  index_marked tracker (Index.uuid server) = false →
  (∃ response, webhook = Normal response) →
  let r := Index.getServerResources server world webhook tracker in
  let r' := Index.getServerResources server world' webhook' r.1.1 in
  notifyCount (Index.uuid server) r.1.2 = 1%nat
  ∧ r.1.1 = <[Index.uuid server := {| Index.reported := true |}]> tracker
  ∧ r.2 = Normal tt
  ∧ notifyCount (Index.uuid server) r'.1.2 = 0%nat
  ∧ r'.1.1 = r.1.1
  ∧ r'.2 = Normal tt.
Proof.
  intros Hf Hover Hf' Hover' Hm [response ->]. cbv zeta.
  rewrite !IndexTaskFacts.index_getServerResources_cases. cbv zeta.
  rewrite Hf, Hover, Hm. cbn [fst snd].
  rewrite Hf', Hover'. unfold index_marked at 1 2 3.
  rewrite lookup_insert_eq. cbn [Index.reported fst snd].
  rewrite EpisodeFacts.notifyCount_app.
  rewrite !(proj1 (RequestFacts.requestsOnly_counts _ _
                     (IndexTaskFacts.index_fetchWithRetry_requestsOnly _ _ _ _))).
  cbn. by rewrite decide_True.
Qed.

Lemma index_reports_first_breach_only_witness :
  (Index.getServerResources index_server (answers over_resources) delivered
     ∅).1.1 = {[ "b" := {| Index.reported := true |} ]}
  ∧ notifyCount "b"
      (Index.getServerResources index_server (answers over_resources) refused
         {[ "b" := {| Index.reported := true |} ]}).1.2 = 0%nat.
Proof.
  destruct (index_reports_first_breach_only index_server
              (answers over_resources) (answers over_resources)
              delivered refused over_resources over_resources ∅)
    as (_ & Htr & _ & Hn & _ & _);
    [reflexivity | reflexivity | reflexivity | reflexivity | reflexivity
    | by eexists |].
  split; [rewrite Htr; apply insert_empty |].
  rewrite Htr in Hn. exact Hn.
Defined.

(** X12.  In index.js nothing catches a webhook that cannot be reached: the
    rejection goes up to the caller of [getServerResources], and the breach
    is not recorded as reported. *)
Theorem index_webhook_failure_reaches_caller (server : Index.ServerEntry)
    (world : nat → completion (Response Resources)) (msg : string)
    (resources : Resources) (tracker : gmap string Index.OverLimitEntry) :
  fetched world = Some resources →
  Index.overLimit (Index.limits server) resources = true →
  index_marked tracker (Index.uuid server) = false →
  let r := Index.getServerResources server world (Throw msg) tracker in
  r.2 = Throw msg
  ∧ r.1.1 = tracker
  ∧ notifyCount (Index.uuid server) r.1.2 = 1%nat.
Proof.
  intros Hf Hover Hm. cbv zeta.
  rewrite IndexTaskFacts.index_getServerResources_cases. cbv zeta.
  rewrite Hf, Hover, Hm. cbn [fst snd]. split; [done |]. split; [done |].
  rewrite EpisodeFacts.notifyCount_app.
  rewrite (proj1 (RequestFacts.requestsOnly_counts _ _
                    (IndexTaskFacts.index_fetchWithRetry_requestsOnly _ _ _ _))).
  cbn. by rewrite decide_True.
Qed.

Lemma index_webhook_failure_reaches_caller_witness :
  (Index.getServerResources index_server (answers over_resources) refused ∅).2
  = Throw "ECONNREFUSED".
Proof.
  apply (index_webhook_failure_reaches_caller index_server
           (answers over_resources) "ECONNREFUSED" over_resources ∅);
    reflexivity.
Defined.

(** X13.  In index.js a server found within its limits loses its record, without
    a word to the webhook, so that the next breach is reported again; and a
    request for the resources that yields no data changes nothing. *)
Theorem index_recovery_rearms (server : Index.ServerEntry)
    (world : nat → completion (Response Resources))
    (webhook : completion (Response unit))
    (tracker : gmap string Index.OverLimitEntry) :
  let r := Index.getServerResources server world webhook tracker in
  (fetched world = None →
   r.1.1 = tracker ∧ r.2 = Normal tt ∧ requestsOnly r.1.2)
  ∧ (∀ resources,
       fetched world = Some resources →
       Index.overLimit (Index.limits server) resources = false →
       r.1.1 = delete (Index.uuid server) tracker
       ∧ index_marked r.1.1 (Index.uuid server) = false
       ∧ r.2 = Normal tt
       ∧ requestsOnly r.1.2).
Proof.
  cbv zeta. rewrite IndexTaskFacts.index_getServerResources_cases. cbv zeta.
  split.
  - intros ->. cbn [fst snd]. split; [done |]. split; [done |].
    apply IndexTaskFacts.index_fetchWithRetry_requestsOnly.
  - intros resources -> ->. cbn [fst snd]. split; [done |].
    split; [unfold index_marked; by rewrite lookup_delete_eq |].
    split; [done |]. apply IndexTaskFacts.index_fetchWithRetry_requestsOnly.
Qed.

Lemma index_recovery_rearms_witness :
  (Index.getServerResources index_server (answers within_resources) refused
     {[ "b" := {| Index.reported := true |} ]}).1.1 = ∅
  ∧ (Index.getServerResources index_server unreachable refused
       {[ "b" := {| Index.reported := true |} ]}).1.1
    = {[ "b" := {| Index.reported := true |} ]}.
Proof.
  split.
  - destruct (proj2 (index_recovery_rearms index_server
                       (answers within_resources) refused
                       {[ "b" := {| Index.reported := true |} ]})
                within_resources eq_refl eq_refl) as (Htr & _).
    rewrite Htr. apply delete_singleton_eq.
  - by destruct (proj1 (index_recovery_rearms index_server unreachable refused
                          {[ "b" := {| Index.reported := true |} ]})
                   eq_refl) as (Htr & _).
Defined.

(** ** Tasks and cycles of abuse log script.js *)

(** X15.  The directory makes requests and sleeps only, at most four requests
    for each page it asks for, with [DELAY_BETWEEN_CHECKS_MS] before every
    retry. *)
Theorem directory_requests_bounded
    (worlds : list (nat → completion (Response Page)))
    (r : list Event * completion (list AbuseLog.ServerEntry)) :
  AbuseLog.getAllServersFromAppAPI worlds = Some r →
  requestsOnly r.1
  ∧ (fetchCount r.1 ≤ 4 * length worlds)%nat
  ∧ Forall (λ ms, ms = AbuseLog.DELAY_BETWEEN_CHECKS_MS) (delaysOf r.1).
Proof. apply RequestFacts.loop_requests. Qed.

Lemma directory_requests_bounded_witness :
  ∃ r, AbuseLog.getAllServersFromAppAPI [answers sample_page1; world_504_page]
       = Some r
       ∧ (fetchCount r.1 ≤ 8)%nat.
Proof.
  destruct (AbuseLog.getAllServersFromAppAPI
              [answers sample_page1; world_504_page]) as [r|] eqn:Hr;
    [| vm_compute in Hr; discriminate Hr].
  exists r. split; [done |].
  by destruct (directory_requests_bounded _ r Hr) as (_ & Hc & _).
Defined.

Module CycleShapeFacts.
Import AbuseLog.

(** A cycle: the listing, the batches, the sleep. *)
Lemma pollCycle_events w (tracker : gmap string OverLimitEntry) r :
  pollCycle w tracker = Some r →
  ∃ events servers,
    getAllServersFromAppAPI (pageWorlds w) = Some (events, Normal servers)
    ∧ r = ((runBatches w (batches servers 0) tracker).1.1,
           events ++ (runBatches w (batches servers 0) tracker).1.2
           ++ [EDelay DELAY_BETWEEN_CHECKS_MS],
           Normal tt).
Proof.
  intros H.
  destruct (CycleFacts.pollCycle_cases w tracker r H)
    as (events & servers & Hl & _ & _).
  exists events, servers. split; [done |].
  unfold pollCycle in H. rewrite Hl in H.
  pose proof (proj2 (CycleFacts.runBatches_flat w (batches servers 0) tracker))
    as Hn.
  destruct (runBatches w (batches servers 0) tracker) as [[tr1 ev1] c1].
  cbn [fst snd] in *. subst c1. by injection H as <-.
Qed.

Lemma batches_nil : batches [] 0 = [].
Proof. reflexivity. Qed.

End CycleShapeFacts.

(** X16.  A cycle whose directory request fails is skipped, not aborted: when the
    walk along the pages ends at a request without data, no server is
    evaluated, the tracker is as it was, and the cycle still ends normally
    with the sleep of [DELAY_BETWEEN_CHECKS_MS]. *)
Theorem pollCycle_directory_failure (w : AbuseLog.CycleWorld)
    (tracker : gmap string AbuseLog.OverLimitEntry)
    (urls : list string) (pages : list Page) :
  crawl abuselog_fetched (AbuseLog.pageWorlds w)
    (Some (AbuseLog.PANEL_URL +:+ "/api/application/servers?page=1"))
    urls pages false →
  ∃ events,
    AbuseLog.pollCycle w tracker
    = Some (tracker, events ++ [EDelay AbuseLog.DELAY_BETWEEN_CHECKS_MS],
            Normal tt)
    ∧ requestsOnly events.
Proof.
  intros Hc.
  destruct (AbuseLogDirectory.abuselog_loop_crawl _ _ _ _ _ [] Hc)
    as (events & Hl & _).
  exists events. split.
  - unfold AbuseLog.pollCycle, AbuseLog.getAllServersFromAppAPI.
    rewrite Hl, CycleShapeFacts.batches_nil. reflexivity.
  - by destruct (RequestFacts.loop_requests _ _ _ _ Hl) as [Hr _].
Qed.

(** The second page cannot be fetched: the record of the bot of the first
    page is neither evaluated nor lost. *)
Lemma pollCycle_directory_failure_witness :
  ∃ events,
    AbuseLog.pollCycle broken_cycle {["b" := mkReported 0]}
    = Some ({["b" := mkReported 0]},
            events ++ [EDelay AbuseLog.DELAY_BETWEEN_CHECKS_MS], Normal tt)
    ∧ requestsOnly events.
Proof.
  apply (pollCycle_directory_failure broken_cycle {["b" := mkReported 0]}
           ["/api/application/servers?page=1";
            "https://panel/api/application/servers?page=2"]
           [sample_page1]).
  eapply crawl_page; [reflexivity | reflexivity |].
  by apply crawl_no_data.
Defined.

(** X17.  A cycle touches the records of the servers of its listing only: the
    record of any other server, one that the panel no longer lists or one
    of an excluded nest, is carried over as it is. *)
Theorem pollCycle_frame (w : AbuseLog.CycleWorld)
    (tracker : gmap string AbuseLog.OverLimitEntry)
    (r : gmap string AbuseLog.OverLimitEntry * list Event * completion unit)
    (events : list Event) (servers : list AbuseLog.ServerEntry)
    (uuid : string) :
  AbuseLog.pollCycle w tracker = Some r →
  AbuseLog.getAllServersFromAppAPI (AbuseLog.pageWorlds w)
  = Some (events, Normal servers) →
  uuid ∉ map AbuseLog.uuid servers →
  r.1.1 !! uuid = tracker !! uuid.
Proof.
  intros Hr Hl Hnot.
  destruct (CycleFacts.pollCycle_cases w tracker r Hr)
    as (events' & servers' & Hl' & -> & _).
  rewrite Hl in Hl'. injection Hl' as _ <-.
  by apply RequestFacts.runBatch_frame.
Qed.

(** The game server "a" is not listed: its record outlives the cycle. *)
Lemma pollCycle_frame_witness :
  ∃ r, AbuseLog.pollCycle game_cycle {["a" := mkReported 0]} = Some r
       ∧ r.1.1 !! "a" = Some (mkReported 0).
Proof.
  destruct (AbuseLog.pollCycle game_cycle {["a" := mkReported 0]}) as [r|]
    eqn:Hr; [| vm_compute in Hr; discriminate Hr].
  exists r. split; [done |].
  rewrite (pollCycle_frame game_cycle {["a" := mkReported 0]} r
             [EFetch "/api/application/servers?page=1"] [] "a" Hr).
  - reflexivity.
  - reflexivity.
  - apply not_elem_of_nil.
Defined.

(** X18.  A cycle that returns has ended normally: it has run the batches of its
    listing one after the other, paused [DELAY_BETWEEN_BATCHES_MS] after
    each of them, [ceil (n / BATCH_SIZE)] times for [n] servers, and its
    last event is the sleep of [DELAY_BETWEEN_CHECKS_MS]. *)
Theorem pollCycle_pace (w : AbuseLog.CycleWorld)
    (tracker : gmap string AbuseLog.OverLimitEntry)
    (r : gmap string AbuseLog.OverLimitEntry * list Event * completion unit) :
  AbuseLog.pollCycle w tracker = Some r →
  ∃ events servers,
    AbuseLog.getAllServersFromAppAPI (AbuseLog.pageWorlds w)
    = Some (events, Normal servers)
    ∧ r.2 = Normal tt
    ∧ (∃ before, r.1.2 = before ++ [EDelay AbuseLog.DELAY_BETWEEN_CHECKS_MS])
    ∧ pausesOf r.1.2
      = ((length servers + (AbuseLog.BATCH_SIZE - 1))
         / AbuseLog.BATCH_SIZE)%nat.
Proof.
  intros Hr.
  destruct (CycleShapeFacts.pollCycle_events w tracker r Hr)
    as (events & servers & Hl & ->).
  exists events, servers. split; [done |]. split; [done |]. cbn [fst snd].
  split; [eexists; by rewrite app_assoc |].
  rewrite !RequestFacts.pausesOf_app, RequestFacts.runBatches_pauses,
    BatchFacts.batches_length, Nat.sub_0_r.
  rewrite (RequestFacts.pausesOf_retries events).
  - change (pausesOf [EDelay AbuseLog.DELAY_BETWEEN_CHECKS_MS]) with 0%nat. lia.
  - by destruct (RequestFacts.loop_requests _ _ _ _ Hl) as (_ & _ & Hd).
Qed.

(** Seven servers are listed: two pauses. *)
Lemma pollCycle_pace_witness :
  ∃ r, AbuseLog.pollCycle seven_cycle ∅ = Some r ∧ pausesOf r.1.2 = 2%nat.
Proof.
  destruct (AbuseLog.pollCycle seven_cycle ∅) as [r|] eqn:Hr;
    [| vm_compute in Hr; discriminate Hr].
  exists r. split; [done |].
  destruct (pollCycle_pace seven_cycle ∅ r Hr)
    as (events & servers & Hl & _ & _ & Hp).
  rewrite Hp. vm_compute in Hl. injection Hl as _ <-. reflexivity.
Defined.

(** ** The clock of an episode *)

Module ClockFacts.
Import AbuseLog TrackerFacts EpisodeFacts.

(** A record that an evaluation leaves in place keeps its start time, and
    its mark once it has one. *)
Lemma evaluate_keeps_clock uuid ev (tracker : gmap string OverLimitEntry) e e' :
  tracker !! uuid = Some e →
  (evaluate ev tracker).1.1 !! uuid = Some e' →
  startTime e' = startTime e ∧ (reported e = true → reported e' = true).
Proof.
  intros He He'. destruct (decide (ev_uuid ev = uuid)) as [<-|Hne].
  - rewrite evaluate_cases in He'. cbv zeta in He'.
    unfold recordInEffect in He'. rewrite He in He'.
    destruct (overLimit _ _); cbn [fst snd] in He';
      [| by rewrite lookup_delete_eq in He'].
    destruct (reached (customKillThresholdSeconds _) _ _);
      [by rewrite lookup_delete_eq in He' |].
    rewrite lookup_insert_eq in He'. injection He' as <-. cbn.
    split; [done |]. by intros ->.
  - rewrite (proj1 (evaluate_other uuid ev tracker Hne)), He in He'.
    by injection He' as <-.
Qed.

Lemma run_keeps_clock uuid evs (tracker : gmap string OverLimitEntry) e e' :
  tracker !! uuid = Some e →
  sameEpisode uuid evs tracker →
  (run evs tracker).1 !! uuid = Some e' →
  startTime e' = startTime e ∧ (reported e = true → reported e' = true).
Proof.
  revert tracker e. induction evs as [|ev evs IH]; intros tracker e He Hs He'.
  - cbn in He'. rewrite He in He'. by injection He' as <-.
  - cbn [run fst] in He'. destruct evs as [|ev' evs].
    + cbn [run fst] in He'. by apply (evaluate_keeps_clock uuid ev tracker).
    + destruct Hs as [[e1 He1] Hs].
      destruct (evaluate_keeps_clock uuid ev tracker e e1 He He1) as [Hs1 Hr1].
      destruct (IH _ e1 He1 Hs He') as [Hs2 Hr2].
      split; [congruence | auto].
Qed.

End ClockFacts.

(** X19.  The clock of an episode is never restarted and its mark never cleared:
    as long as the record of an instance stays in the tracker, over any
    sequence of evaluations, it keeps its start time, and it stays marked as
    reported once it is. *)
Theorem episode_clock_fixed (uuid : string) (evs : list Evaluation)
    (tracker : gmap string AbuseLog.OverLimitEntry)
    (e e' : AbuseLog.OverLimitEntry) :
  tracker !! uuid = Some e →
  sameEpisode uuid evs tracker →
  (run evs tracker).1 !! uuid = Some e' →
  AbuseLog.startTime e' = AbuseLog.startTime e
  ∧ (AbuseLog.reported e = true → AbuseLog.reported e' = true).
Proof. apply ClockFacts.run_keeps_clock. Qed.

(** A breach that started at 1000 ms is evaluated at 7200 s and at 7300 s:
    the record still starts at 1000 ms. *)
Lemma episode_clock_fixed_witness :
  ∃ e', (run [sample_eval "b" 5 over_resources 7200000;
              sample_eval "b" 5 over_resources 7300000]
           {["b" := markOverLimit (freshRecord 1000)]}).1 !! "b" = Some e'
        ∧ AbuseLog.startTime e' = 1000.
Proof.
  eexists. split; [by vm_compute |].
  eapply (episode_clock_fixed "b"
            [sample_eval "b" 5 over_resources 7200000;
             sample_eval "b" 5 over_resources 7300000]
            {["b" := markOverLimit (freshRecord 1000)]}
            (markOverLimit (freshRecord 1000))).
  - reflexivity.
  - split; [vm_compute; eexists; reflexivity | exact I].
  - by vm_compute.
Defined.

(** X20.  Evaluations of two different instances commute: in either order they
    leave the same tracker, and each emits what it emits on its own.  The
    tasks of a batch can therefore be taken in any order. *)
Theorem evaluations_commute (ev1 ev2 : Evaluation)
    (tracker : gmap string AbuseLog.OverLimitEntry) :
  ev_uuid ev1 ≠ ev_uuid ev2 →
  (evaluate ev2 (evaluate ev1 tracker).1.1).1.1
  = (evaluate ev1 (evaluate ev2 tracker).1.1).1.1
  ∧ (evaluate ev2 (evaluate ev1 tracker).1.1).1.2 = (evaluate ev2 tracker).1.2
  ∧ (evaluate ev1 (evaluate ev2 tracker).1.1).1.2 = (evaluate ev1 tracker).1.2.
Proof. apply EpisodeFacts.evaluate_commute. Qed.

Lemma evaluations_commute_witness :
  (evaluate (sample_eval "d" 7 over_resources 10800000)
     (evaluate (sample_eval "b" 5 within_resources 10800000)
        {["b" := mkReported 0; "d" := mkReported 0]}).1.1).1.1
  = (evaluate (sample_eval "b" 5 within_resources 10800000)
       (evaluate (sample_eval "d" 7 over_resources 10800000)
          {["b" := mkReported 0; "d" := mkReported 0]}).1.1).1.1.
Proof.
  apply (evaluations_commute (sample_eval "b" 5 within_resources 10800000)
           (sample_eval "d" 7 over_resources 10800000)).
  discriminate.
Defined.

(** ** The two directories *)

Module ListingFacts.

Lemma index_fetched_abuselog w : index_fetched w = abuselog_fetched w.
Proof.
  unfold index_fetched, abuselog_fetched.
  by rewrite (IndexDirectory.index_fetchWithRetry_value "" "").
Qed.

Lemma crawl_fetched_ext f g worlds next urls pages complete :
  (∀ w, f w = g w) →
  crawl f worlds next urls pages complete →
  crawl g worlds next urls pages complete.
Proof.
  intros Hfg. induction 1; econstructor; rewrite <- ?Hfg; eauto.
Qed.

(** The walk goes through the same pages whatever the first address. *)
Lemma crawl_first_url f worlds url url' urls pages complete :
  url ≠ "" → url' ≠ "" →
  crawl f worlds (Some url) urls pages complete →
  ∃ urls', crawl f worlds (Some url') urls' pages complete.
Proof.
  intros Hu Hu' Hc.
  assert (Hn' : or_null (Some url') = Some url').
  { cbn. by rewrite decide_False. }
  inversion Hc as [? ? Hn | ? ? ? ? Hn Hf | ? ? ? ? ? ? ? ? Hn Hf Hc']; subst.
  - cbn in Hn. by rewrite decide_False in Hn.
  - eexists. by eapply crawl_no_data.
  - eexists. by eapply crawl_page.
Qed.

Lemma map_forgetNest servers :
  map forgetNest (map abuselog_entry servers) = map index_entry servers.
Proof. induction servers as [|s servers IH]; cbn; [done |]. by rewrite IH. Qed.

Lemma first_url_abuselog :
  AbuseLog.PANEL_URL +:+ "/api/application/servers?page=1" ≠ "".
Proof. intros H. vm_compute in H. discriminate H. Qed.

Lemma first_url_index :
  Index.PANEL_URL +:+ "/api/application/servers?page=1" ≠ "".
Proof. intros H. vm_compute in H. discriminate H. Qed.

End ListingFacts.

(** X21.  The two scripts list the same servers: on the same answers of the
    panel, the listing of index.js is the listing of abuse log script.js
    with the nest of each entry left out, and the one returns exactly when
    the other does. *)
Theorem listings_agree (worlds : list (nat → completion (Response Page))) :
  (∀ r, AbuseLog.getAllServersFromAppAPI worlds = Some r →
     ∃ events servers,
       r.2 = Normal servers
       ∧ Index.getAllServersFromAppAPI worlds
         = Some (events, Normal (map forgetNest servers)))
  ∧ (AbuseLog.getAllServersFromAppAPI worlds = None →
     Index.getAllServersFromAppAPI worlds = None).
Proof.
  unfold AbuseLog.getAllServersFromAppAPI, Index.getAllServersFromAppAPI.
  split.
  - intros r Hr.
    destruct (AbuseLogDirectory.abuselog_loop_returns _ _ _ _ Hr)
      as (urls & pages & complete & Hc).
    destruct (AbuseLogDirectory.abuselog_loop_crawl _ _ _ _ _ [] Hc)
      as (events & Heq & _).
    rewrite Heq in Hr. injection Hr as <-.
    destruct (ListingFacts.crawl_first_url _ _ _
                (Index.PANEL_URL +:+ "/api/application/servers?page=1")
                _ _ _ ListingFacts.first_url_abuselog
                ListingFacts.first_url_index Hc)
      as (urls' & Hc').
    apply (ListingFacts.crawl_fetched_ext _ index_fetched) in Hc';
      [| intros w; symmetry; apply ListingFacts.index_fetched_abuselog].
    destruct (IndexDirectory.index_loop_crawl _ _ _ _ _ [] Hc')
      as (events' & Heq' & _).
    eexists events', _. split; [reflexivity |]. rewrite Heq'.
    destruct complete; [| done].
    cbn [app]. by rewrite ListingFacts.map_forgetNest.
  - intros Hnone.
    destruct (Index.getAllServers_loop worlds _ []) as [r|] eqn:Hr; [| done].
    destruct (IndexDirectory.index_loop_returns _ _ _ _ Hr)
      as (urls & pages & complete & Hc).
    destruct (ListingFacts.crawl_first_url _ _ _
                (AbuseLog.PANEL_URL +:+ "/api/application/servers?page=1")
                _ _ _ ListingFacts.first_url_index
                ListingFacts.first_url_abuselog Hc)
      as (urls' & Hc').
    apply (ListingFacts.crawl_fetched_ext _ abuselog_fetched) in Hc';
      [| apply ListingFacts.index_fetched_abuselog].
    destruct (AbuseLogDirectory.abuselog_loop_crawl _ _ _ _ _ [] Hc')
      as (events' & Heq' & _).
    by rewrite Heq' in Hnone.
Qed.

Lemma listings_agree_witness :
  ∃ events,
    Index.getAllServersFromAppAPI [answers sample_page1; answers sample_page2]
    = Some (events,
            Normal [index_entry (sample_server "b" 5);
                    index_entry (sample_server "d" 7)]).
Proof.
  destruct (AbuseLog.getAllServersFromAppAPI
              [answers sample_page1; answers sample_page2]) as [r|] eqn:Hr;
    [| vm_compute in Hr; discriminate Hr].
  destruct (proj1 (listings_agree [answers sample_page1; answers sample_page2])
              r Hr) as (events & servers & Hs & Hl).
  exists events. rewrite Hl. vm_compute in Hr. injection Hr as <-.
  cbn [snd] in Hs. injection Hs as <-. reflexivity.
Defined.

(** ** The time stamp of the log *)

Module TimestampFacts.
Import AbuseLog.

Lemma string_app_empty s : "" +:+ s = s.
Proof. reflexivity. Qed.

Lemma string_app_cons a s s' : String a s +:+ s' = String a (s +:+ s').
Proof. reflexivity. Qed.

Lemma replaceChar_first c by_ s s' :
  hasChar c s = false →
  replaceChar c by_ (s +:+ String c s') = s +:+ by_ +:+ s'.
Proof.
  induction s as [|a s IH]; intros H.
  - rewrite !string_app_empty. cbn [replaceChar]. by rewrite Ascii.eqb_refl.
  - cbn [hasChar] in H. apply orb_false_iff in H as [Ha Hs].
    rewrite !string_app_cons. cbn [replaceChar]. rewrite Ha. by rewrite IH.
Qed.

Lemma substring_prefix s s' :
  String.substring 0 (String.length s) (s +:+ s') = s.
Proof.
  induction s as [|a s IH].
  - rewrite string_app_empty. by destruct s'.
  - rewrite string_app_cons. cbn [String.length String.substring]. by rewrite IH.
Qed.

Lemma string_length_app s s' :
  String.length (s +:+ s') = (String.length s + String.length s')%nat.
Proof.
  induction s as [|a s IH]; [done |].
  rewrite string_app_cons. cbn [String.length]. by rewrite IH.
Qed.

Lemma string_app_assoc s1 s2 s3 : (s1 +:+ s2) +:+ s3 = s1 +:+ (s2 +:+ s3).
Proof.
  induction s1 as [|a s1 IH]; [done |]. rewrite !string_app_cons. by rewrite IH.
Qed.

End TimestampFacts.

(** X22.  [getTimestamp] turns the ISO form of an instant,
    [YYYY-MM-DDTHH:mm:ss.sssZ], into [YYYY-MM-DD HH:mm:ss]: the date of ten
    characters, a space for the [T], the time of eight characters, and
    nothing of what follows. *)
Theorem getTimestamp_iso (date time rest : string) :
  String.length date = 10%nat → String.length time = 8%nat →
  hasChar "T" date = false →
  AbuseLog.getTimestamp (date +:+ "T" +:+ time +:+ rest)
  = date +:+ " " +:+ time.
Proof.
  intros Hd Ht Hno. unfold AbuseLog.getTimestamp.
  change (date +:+ "T" +:+ time +:+ rest)
    with (date +:+ String "T" (time +:+ rest)).
  rewrite (TimestampFacts.replaceChar_first _ _ _ _ Hno).
  replace (date +:+ " " +:+ time +:+ rest)
    with ((date +:+ " " +:+ time) +:+ rest).
  - replace 19%nat with (String.length (date +:+ " " +:+ time)).
    + apply TimestampFacts.substring_prefix.
    + rewrite !TimestampFacts.string_length_app, Hd, Ht. reflexivity.
  - by rewrite !TimestampFacts.string_app_assoc.
Qed.

Lemma getTimestamp_iso_witness :
  AbuseLog.getTimestamp "2024-05-17T08:30:15.123Z" = "2024-05-17 08:30:15".
Proof.
  apply (getTimestamp_iso "2024-05-17" "08:30:15" ".123Z"); reflexivity.
Defined.

(** ** The servers that a cycle evaluates *)

Module VisitFacts.
Import AbuseLog.

Lemma escalationsOf_app events events' :
  escalationsOf (events ++ events')
  = escalationsOf events ++ escalationsOf events'.
Proof. induction events as [|[] events IH]; cbn; by rewrite ?IH. Qed.

Lemma escalationsOf_requests events :
  requestsOnly events → escalationsOf events = [].
Proof. induction 1 as [|[] events He _ IH]; cbn; done. Qed.

Lemma escalationsOf_evaluate ev (tracker : gmap string OverLimitEntry) :
  escalationsOf (evaluate ev tracker).1.2 = (evaluate ev tracker).1.2.
Proof.
  rewrite EscalationFacts.evaluate_events. cbv zeta.
  by destruct (_ && _), (_ && _).
Qed.

Lemma requestCount_app events events' :
  requestCount (events ++ events')
  = (requestCount events + requestCount events')%nat.
Proof. induction events as [|[] events IH]; cbn; by rewrite ?IH. Qed.

Lemma requestCount_requests events :
  requestsOnly events → requestCount events = fetchCount events.
Proof. induction 1 as [|[] events He _ IH]; cbn; by rewrite ?IH. Qed.

Lemma requestCount_evaluate ev (tracker : gmap string OverLimitEntry) :
  (requestCount (evaluate ev tracker).1.2 ≤ 3)%nat.
Proof.
  rewrite EscalationFacts.evaluate_events. cbv zeta.
  destruct (_ && _), (_ && _); cbn; lia.
Qed.





End VisitFacts.



(** X14.  A task never throws.  It makes at most four requests for the
    resources of its server and at most seven calls of [fetch] in all, the
    report, the kill signal and the audit message being one each.  When the
    request for the resources yields no data the task stops there: the
    tracker is as it was, nothing is reported and nothing is killed, so a
    poll that fails neither starts nor resets nor ends an episode.  With
    data, the task is the evaluation of the snapshot. *)
Theorem getServerResources_failed_poll (uuid : string) (limits : Limits)
    (name : string) (nest : Z)
    (world : nat → completion (Response Resources)) (now1 now2 : Z)
    (tracker : gmap string AbuseLog.OverLimitEntry) :
  let r := AbuseLog.getServerResources uuid limits name nest world now1 now2
             tracker in
  r.2 = Normal tt
  ∧ (fetchCount r.1.2 ≤ 4)%nat
  ∧ (fetched world = None → r.1.1 = tracker ∧ requestsOnly r.1.2)
  ∧ (∀ resources, fetched world = Some resources →
       r.1.1 = (evaluate (mkEvaluation uuid limits nest resources now1 now2)
                  tracker).1.1)
  ∧ (requestCount r.1.2 ≤ 7)%nat
  ∧ (∀ resources, fetched world = Some resources →
       escalationsOf r.1.2
       = (evaluate (mkEvaluation uuid limits nest resources now1 now2)
            tracker).1.2).
Proof.
  cbv zeta. rewrite RequestFacts.getServerResources_split. cbv zeta.
  pose proof (FetchWithRetryFacts.fetchWithRetry_fetchCount
                (AbuseLog.PANEL_URL +:+ "/api/client/servers/" +:+ uuid
                 +:+ "/resources") world 0 AbuseLog.RETRY_LIMIT) as Hc.
  pose proof (RequestFacts.fetchWithRetry_requestsOnly
                (AbuseLog.PANEL_URL +:+ "/api/client/servers/" +:+ uuid
                 +:+ "/resources") world 0 AbuseLog.RETRY_LIMIT) as Hreq.
  change (Z.to_nat AbuseLog.RETRY_LIMIT) with 3%nat in Hc.
  destruct (fetched world) as [resources|]; cbn [fst snd].
  - split; [done |]. split.
    + rewrite RequestFacts.fetchCount_app,
        (proj1 (RequestFacts.evaluate_no_requests _ _)). lia.
    + split; [done |]. split; [by intros ? [= <-] |]. split.
      * rewrite VisitFacts.requestCount_app,
          (VisitFacts.requestCount_requests _ Hreq).
        pose proof (VisitFacts.requestCount_evaluate
                      (mkEvaluation uuid limits nest resources now1 now2)
                      tracker).
        lia.
      * intros ? [= <-].
        rewrite VisitFacts.escalationsOf_app,
          (VisitFacts.escalationsOf_requests _ Hreq).
        apply VisitFacts.escalationsOf_evaluate.
  - split; [done |]. split; [lia |]. split; [by intros _ |].
    split; [done |]. split; [| done].
    rewrite (VisitFacts.requestCount_requests _ Hreq). lia.
Qed.

(** The panel cannot be reached: the record of the bot stays.  The panel
    answers and the bot, already reported, is due for its kill: the kill
    signal and the audit message follow the request. *)
Lemma getServerResources_failed_poll_witness :
  (AbuseLog.getServerResources "b" sample_limits "bot" 5 unreachable
     7200000 7200000 {["b" := mkReported 0]}).1.1
  = {["b" := mkReported 0]}
  ∧ escalationsOf
      (AbuseLog.getServerResources "b" sample_limits "bot" 5
         (answers over_resources) 10800000 10800000
         {["b" := mkReported 0]}).1.2
    = Terminate "b".
Proof.
  split.
  - by destruct (proj1 (proj2 (proj2 (getServerResources_failed_poll
                   "b" sample_limits "bot" 5 unreachable 7200000 7200000
                   {["b" := mkReported 0]}))) eq_refl) as [Htr _].
  - rewrite (proj2 (proj2 (proj2 (proj2 (proj2
               (getServerResources_failed_poll "b" sample_limits "bot" 5
                  (answers over_resources) 10800000 10800000
                  {["b" := mkReported 0]}))))) over_resources eq_refl).
    by vm_compute.
Defined.
